(** * Multi-camera identity monitor: a model of [main.py]

    The program keeps one status record per known person, refreshes the
    records from a background thread ([process_multi_camera]) and shows one
    window per person from the main loop.  This file embeds the module-level
    state, the worker, the main loop and the interleaving of the two, and
    proves the properties of the resolution pass, of the dispatch gate and
    of the capture step.

    Distances are Python floats, that is IEEE 754 binary64 values: they are
    modelled by Rocq's primitive floats, whose [<?] is the comparison the
    interpreter performs.  Camera indices are Python ints ([Z]), names are
    strings, [people_status] is a finite map from names to records and a
    frame dictionary is an association list in insertion order, the order in
    which [dict.items()] yields it.  Frames and reference images are opaque:
    the program only hands them to the oracle and to the windows. *)

From Stdlib Require Import ZArith List Bool Lia Floats.
From stdpp Require Import gmap strings list fin_maps sorting.

Open Scope Z_scope.

(** ** Data *)

(** What one call of [DeepFace.verify] does: it returns a dictionary with the
    keys ["verified"] and ["distance"], or it raises. *)
Inductive VerifyResult : Type :=
| Result (verified : bool) (dist : float)
| Raised.

(** The value stored under a name in [people_status] (lines 44 and 48). *)
Record Status (Image : Type) : Type := mkStatus {
  best_cam_index : Z;
  distance : float;
  is_match : bool;
  ref_img : Image
}.
Arguments mkStatus {Image} _ _ _ _.
Arguments best_cam_index {Image} _.
Arguments distance {Image} _.
Arguments is_match {Image} _.
Arguments ref_img {Image} _.

(** A [cv2.VideoCapture]: the frames the device will deliver, one per call of
    [read], and the number of calls made so far.  A call that delivers nothing
    is [(False, None)] in the source and [None] here. *)
Record VideoCapture (Frame : Type) : Type := mkCap {
  feed : nat -> option Frame;
  cursor : nat
}.
Arguments mkCap {Frame} _ _.
Arguments feed {Frame} _ _.
Arguments cursor {Frame} _.

(** The module-level variables of [main.py]. *)
Record Globals (Frame Image : Type) : Type := mkGlobals {
  people_status : gmap string (Status Image);
  valid_people : list string;
  caps : list (VideoCapture Frame);
  is_processing : bool;
  counter : Z
}.
Arguments mkGlobals {Frame Image} _ _ _ _ _.
Arguments people_status {Frame Image} _.
Arguments valid_people {Frame Image} _.
Arguments caps {Frame Image} _.
Arguments is_processing {Frame Image} _.
Arguments counter {Frame Image} _.

(** The three local accumulators of the camera loop (lines 84 to 86). *)
Record Best : Type := mkBest {
  current_best_cam : Z;
  current_best_dist : float;
  found_match : bool
}.

(** How the [try] of the worker ended: normally, or in the outer [except]. *)
Inductive PassOutcome : Type := Completed | ThreadError.

(** Where a worker thread stands.  The camera loop of one person works on the
    thread's own frames and is one step; each of the three assignments of
    lines 115 to 117 is a step of its own, since the main thread may run
    between any two of them. *)
Inductive Worker : Type :=
| AtPerson (pending : list string)
| AtStoreMatch (name : string) (best : Best) (pending : list string)
| AtStoreCam (name : string) (best : Best) (pending : list string)
| AtStoreDist (name : string) (best : Best) (pending : list string)
| AtFinally (outcome : PassOutcome).

(** A started [threading.Thread]: its argument and its position. *)
Record Thread (Frame : Type) : Type := mkThread {
  frames_copy : list (Z * Frame);
  pc : Worker
}.
Arguments mkThread {Frame} _ _.
Arguments frames_copy {Frame} _.
Arguments pc {Frame} _.

(** The whole process: the globals and the live worker threads. *)
Record System (Frame Image : Type) : Type := mkSystem {
  globals : Globals Frame Image;
  threads : list (Thread Frame)
}.
Arguments mkSystem {Frame Image} _ _.
Arguments globals {Frame Image} _.
Arguments threads {Frame Image} _.

(** What a window shows after line 187. *)
Inductive View (Frame : Type) : Type :=
| Winner (cam_idx : Z) (dist : float) (display_frame : Frame)
| Searching.
Arguments Winner {Frame} _ _ _.
Arguments Searching {Frame}.

(** What one iteration printed or showed. *)
Inductive Shown (Frame : Type) : Type :=
| Windows (views : list (string * View Frame))
| WaitingForCameras.
Arguments Windows {Frame} _.
Arguments WaitingForCameras {Frame}.

(** Exceptions the main thread does not catch. *)
Inductive Exn : Type := IndexError | KeyError.

(** How one iteration of [while True] ends. *)
Inductive TickResult (Frame Image : Type) : Type :=
| Continue (s : System Frame Image) (out : Shown Frame)
| Quit (s : System Frame Image) (out : Shown Frame)
| Uncaught (e : Exn).
Arguments Continue {Frame Image} _ _.
Arguments Quit {Frame Image} _ _.
Arguments Uncaught {Frame Image} _.

(** A scheduling decision: the main thread runs one iteration (and
    [cv2.waitKey] reports whether [q] was pressed), or a worker thread runs
    one step.  An iteration is one step of the model: the main thread writes
    no record, and it alone sets [is_processing] and starts threads, which it
    does only when it has read the flag clear, that is when no worker is
    left to interfere. *)
Inductive Event : Type :=
| Tick (key_q : bool)
| Work (tid : nat).

(** The state of the process after a schedule. *)
Inductive RunResult (Frame Image : Type) : Type :=
| Running (s : System Frame Image)
| Exited (code : Z).
Arguments Running {Frame Image} _.
Arguments Exited {Frame Image} _.

(** ** The program *)

Section Model.

Context {Frame Image : Type}.

(** [DeepFace.verify] with the fixed model and detector, as a function of the
    probe frame and the reference image. *)
Variable verify : Frame -> Image -> VerifyResult.

(** Line 44: the record a person starts with. *)
Definition initial_status (img : Image) : Status Image :=
  mkStatus (-1) 10%float false img.

(** Lines 40 to 52.  The configuration comes with what [cv2.imread] returned
    for each path. *)
Definition load_reference_images (config : list (string * option Image))
  : gmap string (Status Image) * list string :=
  fold_left
    (fun acc entry =>
       match snd entry with
       | Some img => (<[fst entry := initial_status img]> (fst acc), snd acc ++ [fst entry])
       | None => acc
       end)
    config (∅, []).

(** Lines 32 to 73 and 127: the state in which the main loop is entered.
    [sources] are the capture objects line 57 builds, one per configured
    source, opened or not. *)
Definition startup (config : list (string * option Image))
    (sources : list (VideoCapture Frame)) : System Frame Image :=
  let loaded := load_reference_images config in
  mkSystem (mkGlobals (fst loaded) (snd loaded) sources false 0) [].

(** Lines 84 to 86. *)
Definition initial_best : Best := mkBest (-1) 10%float false.

(** Lines 92 to 112: the body of the camera loop for one dictionary entry. *)
Definition check_camera (ref : Image) (b : Best) (entry : Z * Frame) : Best :=
  match verify (snd entry) ref with
  | Result true d =>
      if (d <? current_best_dist b)%float
      then mkBest (fst entry) d true
      else mkBest (current_best_cam b) (current_best_dist b) true
  | Result false _ => b
  | Raised => b
  end.

(** Lines 84 to 112: the camera loop of one person. *)
Definition check_every_camera (ref : Image) (frames_dict : list (Z * Frame)) : Best :=
  fold_left (check_camera ref) frames_dict initial_best.

(** Lines 115, 116 and 117.  The key is present: line 88 has read it, and no
    statement of the program removes a key. *)
Definition store_is_match (name : string) (v : bool)
    (ps : gmap string (Status Image)) : gmap string (Status Image) :=
  alter (fun r => mkStatus (best_cam_index r) (distance r) v (ref_img r)) name ps.

Definition store_best_cam_index (name : string) (v : Z)
    (ps : gmap string (Status Image)) : gmap string (Status Image) :=
  alter (fun r => mkStatus v (distance r) (is_match r) (ref_img r)) name ps.

Definition store_distance (name : string) (v : float)
    (ps : gmap string (Status Image)) : gmap string (Status Image) :=
  alter (fun r => mkStatus (best_cam_index r) v (is_match r) (ref_img r)) name ps.

Definition update_status (name : string) (b : Best)
    (ps : gmap string (Status Image)) : gmap string (Status Image) :=
  store_distance name (current_best_dist b)
    (store_best_cam_index name (current_best_cam b)
       (store_is_match name (found_match b) ps)).

(** Lines 83 to 117: the loop over the people.  A missing key at line 88
    raises [KeyError], which the outer [except] catches: the loop stops. *)
Fixpoint for_every_person (frames_dict : list (Z * Frame)) (names : list string)
    (ps : gmap string (Status Image)) : gmap string (Status Image) * PassOutcome :=
  match names with
  | [] => (ps, Completed)
  | name :: rest =>
      match ps !! name with
      | None => (ps, ThreadError)
      | Some r =>
          for_every_person frames_dict rest
            (update_status name (check_every_camera (ref_img r) frames_dict) ps)
      end
  end.

(** Lines 75 to 122, run without interruption. *)
Definition process_multi_camera (frames_dict : list (Z * Frame))
    (g : Globals Frame Image) : Globals Frame Image * PassOutcome :=
  let res := for_every_person frames_dict (valid_people g) (people_status g) in
  (mkGlobals (fst res) (valid_people g) (caps g) false (counter g), snd res).

(** The same worker, one step at a time.  [None] is the end of the thread. *)
Definition with_people_status (g : Globals Frame Image)
    (ps : gmap string (Status Image)) : Globals Frame Image :=
  mkGlobals ps (valid_people g) (caps g) (is_processing g) (counter g).

Definition worker_step (frames_dict : list (Z * Frame)) (w : Worker)
    (g : Globals Frame Image) : option Worker * Globals Frame Image :=
  match w with
  | AtPerson [] => (Some (AtFinally Completed), g)
  | AtPerson (name :: rest) =>
      match people_status g !! name with
      | None => (Some (AtFinally ThreadError), g)
      | Some r =>
          (Some (AtStoreMatch name (check_every_camera (ref_img r) frames_dict) rest), g)
      end
  | AtStoreMatch name b rest =>
      (Some (AtStoreCam name b rest),
       with_people_status g (store_is_match name (found_match b) (people_status g)))
  | AtStoreCam name b rest =>
      (Some (AtStoreDist name b rest),
       with_people_status g (store_best_cam_index name (current_best_cam b) (people_status g)))
  | AtStoreDist name b rest =>
      (Some (AtPerson rest),
       with_people_status g (store_distance name (current_best_dist b) (people_status g)))
  | AtFinally _ =>
      (None, mkGlobals (people_status g) (valid_people g) (caps g) false (counter g))
  end.

(** [n] steps of one worker, stopping when the thread ends. *)
Fixpoint worker_steps (n : nat) (frames_dict : list (Z * Frame)) (w : Worker)
    (g : Globals Frame Image) : option Worker * Globals Frame Image :=
  match n with
  | O => (Some w, g)
  | S n' =>
      match worker_step frames_dict w g with
      | (Some w', g') => worker_steps n' frames_dict w' g'
      | (None, g') => (None, g')
      end
  end.

(** [cap.read()]. *)
Definition read (cap : VideoCapture Frame) : option Frame * VideoCapture Frame :=
  (feed cap (cursor cap), mkCap (feed cap) (S (cursor cap))).

(** Lines 137 to 141: [for i, cap in enumerate(caps)], counting from [i]. *)
Fixpoint read_all (i : Z) (cs : list (VideoCapture Frame))
  : list (Z * Frame) * list (VideoCapture Frame) :=
  match cs with
  | [] => ([], [])
  | cap :: rest =>
      let r := read cap in
      let rs := read_all (i + 1) rest in
      (match fst r with
       | Some frame => (i, frame) :: fst rs
       | None => fst rs
       end, snd r :: snd rs)
  end.

(** Lines 131 to 141.  [caps[0]] raises [IndexError] on an empty list. *)
Definition capture (cs : list (VideoCapture Frame))
  : Exn + (list (Z * Frame) * list (VideoCapture Frame)) :=
  match cs with
  | [] => inl IndexError
  | cap0 :: rest => inr (read_all 0 (snd (read cap0) :: rest))
  end.

(** [current_frames[k]] and [k in current_frames]. *)
Fixpoint frame_of (frames_dict : list (Z * Frame)) (k : Z) : option Frame :=
  match frames_dict with
  | [] => None
  | (k', f) :: rest => if Z.eqb k' k then Some f else frame_of rest k
  end.

(** Lines 161 to 184 for one person. *)
Definition view_of (current_frames : list (Z * Frame)) (status : Status Image)
  : View Frame :=
  if is_match status then
    match frame_of current_frames (best_cam_index status) with
    | Some f => Winner (best_cam_index status) (distance status) f
    | None => Searching
    end
  else Searching.

(** Lines 160 to 187.  A missing key at line 161 is an uncaught [KeyError].
    The record of a person is read here at one moment.  The source reads its
    fields one after another from the dictionary the worker writes to
    (lines 163, 165 and 169), so this is what the source shows when no worker
    stores in between; statements about the windows are made for iterations
    during which no worker runs. *)
Fixpoint display (current_frames : list (Z * Frame)) (names : list string)
    (ps : gmap string (Status Image)) : option (list (string * View Frame)) :=
  match names with
  | [] => Some []
  | name :: rest =>
      match ps !! name with
      | None => None
      | Some status =>
          match display current_frames rest ps with
          | None => None
          | Some vs => Some ((name, view_of current_frames status) :: vs)
          end
      end
  end.

(** Line 150. *)
Definition dispatch_due (g : Globals Frame Image) : bool :=
  (counter g mod 30 =? 0) && negb (is_processing g).

(** Lines 129 to 194: one iteration of the main loop. *)
Definition tick (key_q : bool) (s : System Frame Image) : TickResult Frame Image :=
  let g := globals s in
  match capture (caps g) with
  | inl e => Uncaught e
  | inr (current_frames, caps') =>
      match current_frames with
      | [] =>
          let s' := mkSystem (mkGlobals (people_status g) (valid_people g) caps'
                                (is_processing g) (counter g)) (threads s) in
          if key_q then Quit s' WaitingForCameras else Continue s' WaitingForCameras
      | _ :: _ =>
          let started := dispatch_due g in
          let threads' :=
            if started
            then threads s ++ [mkThread current_frames (AtPerson (valid_people g))]
            else threads s in
          let g' := mkGlobals (people_status g) (valid_people g) caps'
                      (if started then true else is_processing g) (counter g + 1) in
          match display current_frames (valid_people g) (people_status g) with
          | None => Uncaught KeyError
          | Some vs =>
              if key_q then Quit (mkSystem g' threads') (Windows vs)
              else Continue (mkSystem g' threads') (Windows vs)
          end
      end
  end.

(** One step of worker thread number [tid]; nothing if there is none. *)
Definition work (tid : nat) (s : System Frame Image) : System Frame Image :=
  match threads s !! tid with
  | None => s
  | Some t =>
      match worker_step (frames_copy t) (pc t) (globals s) with
      | (Some w', g') => mkSystem g' (<[tid := mkThread (frames_copy t) w']> (threads s))
      | (None, g') => mkSystem g' (take tid (threads s) ++ drop (S tid) (threads s))
      end
  end.

(** The process under a schedule.  Pressing [q] ends it with exit code 0, an
    uncaught exception of the main thread with exit code 1. *)
Fixpoint run (schedule : list Event) (s : System Frame Image) : RunResult Frame Image :=
  match schedule with
  | [] => Running s
  | Tick key_q :: rest =>
      match tick key_q s with
      | Continue s' _ => run rest s'
      | Quit _ _ => Exited 0
      | Uncaught _ => Exited 1
      end
  | Work tid :: rest => run rest (work tid s)
  end.

End Model.

(** ** Vocabulary of the statements *)

Section Vocabulary.

Context {Frame Image : Type}.
Variable verify : Frame -> Image -> VerifyResult.

(** Camera [c] of the dictionary reports a verified match at distance [d]
    against the reference image [ref]. *)
Definition verified_at (ref : Image) (frames_dict : list (Z * Frame))
    (c : Z) (d : float) : Prop :=
  exists f, (c, f) ∈ frames_dict /\ verify f ref = Result true d.

(** The keys of a dictionary in iteration order. *)
Definition keys (frames_dict : list (Z * Frame)) : list Z := map fst frames_dict.

(** The dictionary is iterated in ascending key order. *)
Definition ascending (frames_dict : list (Z * Frame)) : Prop :=
  StronglySorted Z.lt (keys frames_dict).

(** Every person of [valid_people] has a record. *)
Definition registered (g : Globals Frame Image) : Prop :=
  forall name, name ∈ valid_people g -> is_Some (people_status g !! name).

(** The record the worker leaves for a person whose record was [r]. *)
Definition published (frames_dict : list (Z * Frame)) (r : Status Image) : Status Image :=
  let b := check_every_camera verify (ref_img r) frames_dict in
  mkStatus (current_best_cam b) (current_best_dist b) (found_match b) (ref_img r).

(** The people whose records a pass writes: those before the first missing
    key. *)
Fixpoint reached (names : list string) (ps : gmap string (Status Image)) : list string :=
  match names with
  | [] => []
  | name :: rest =>
      match ps !! name with
      | None => []
      | Some _ => name :: reached rest ps
      end
  end.

(** The two shapes of the accumulators after the loop: untouched, when no
    verified distance is below 10.0; or the first camera with the least
    verified distance. *)
Definition untouched (ref : Image) (frames_dict : list (Z * Frame)) (b : Best) : Prop :=
  current_best_cam b = (-1)%Z /\ current_best_dist b = 10%float /\
  forall c d, verified_at ref frames_dict c d -> (d <? 10)%float = false.

Definition least (ref : Image) (frames_dict : list (Z * Frame)) (b : Best) : Prop :=
  (current_best_dist b <? 10)%float = true /\
  verified_at ref frames_dict (current_best_cam b) (current_best_dist b) /\
  forall c d, verified_at ref frames_dict c d ->
    (d <? current_best_dist b)%float = false /\
    ((d =? current_best_dist b)%float = true -> (current_best_cam b <= c)%Z).

(** A record of which the first [k] of the three assignments of lines 115
    to 117 have been made. *)
Definition partly_published (k : nat) (frames_dict : list (Z * Frame))
    (r : Status Image) : Status Image :=
  let p := published frames_dict r in
  match k with
  | O => r
  | 1%nat => mkStatus (best_cam_index r) (distance r) (is_match p) (ref_img r)
  | 2%nat => mkStatus (best_cam_index p) (distance r) (is_match p) (ref_img r)
  | _ => p
  end.

(** A worker position agrees with the records [ps0] its pass started from:
    the accumulators it carries are those of the camera loop of its person. *)
Definition carries_scan (ps0 : gmap string (Status Image))
    (frames_dict : list (Z * Frame)) (w : Worker) : Prop :=
  match w with
  | AtStoreMatch name b _ | AtStoreCam name b _ | AtStoreDist name b _ =>
      forall r, ps0 !! name = Some r ->
        b = check_every_camera verify (ref_img r) frames_dict
  | _ => True
  end.

(** How many assignments the worker has at least made for a person. *)
Definition stage (w : Worker) (name : string) : nat :=
  match w with
  | AtStoreCam n _ _ => if decide (name = n) then 1%nat else 0%nat
  | AtStoreDist n _ _ => if decide (name = n) then 2%nat else 0%nat
  | _ => 0%nat
  end.

(** Every record is the record of the start of the pass with some of the
    three assignments made. *)
Definition in_pass (ps0 : gmap string (Status Image))
    (frames_dict : list (Z * Frame)) (w : Worker)
    (ps : gmap string (Status Image)) : Prop :=
  carries_scan ps0 frames_dict w /\
  forall name r, ps0 !! name = Some r ->
    exists k, (stage w name <= k)%nat /\
      ps !! name = Some (partly_published k frames_dict r).

(** The state of a pass in flight: the flag is set, the one thread works on
    [frames_dict], and the records are in one of the four stages. *)
Definition flying (ps0 : gmap string (Status Image)) (frames_dict : list (Z * Frame))
    (s : System Frame Image) : Prop :=
  is_processing (globals s) = true /\
  exists w, threads s = [mkThread frames_dict w] /\
    in_pass ps0 frames_dict w (people_status (globals s)).

(** The process under a schedule for as long as no worker thread ends:
    [None] when the process exits or a thread ends on the way. *)
Fixpoint run_in_flight (schedule : list Event) (s : System Frame Image)
  : option (System Frame Image) :=
  match schedule with
  | [] => Some s
  | ev :: rest =>
      match run verify [ev] s with
      | Running s' =>
          if (length (threads s') <? length (threads s))%nat then None
          else run_in_flight rest s'
      | Exited _ => None
      end
  end.

(** The dispatch gate: a worker thread is alive exactly when the flag is
    set, and then there is one. *)
Definition gate (s : System Frame Image) : Prop :=
  (threads s = [] /\ is_processing (globals s) = false) \/
  (exists t, threads s = [t] /\ is_processing (globals s) = true).

(** The system an iteration leaves, unless it raised. *)
Definition system_of (r : TickResult Frame Image) : option (System Frame Image) :=
  match r with
  | Continue s _ | Quit s _ => Some s
  | Uncaught _ => None
  end.

(** No event of the schedule is a press of [q]. *)
Definition no_quit (schedule : list Event) : Prop :=
  forall ev, ev ∈ schedule -> ev <> Tick true.

(** The entries of a dictionary for which the oracle does not raise. *)
Definition without_raising (ref : Image) (frames_dict : list (Z * Frame))
  : list (Z * Frame) :=
  List.filter
    (fun entry => match verify (snd entry) ref with Raised => false | _ => true end)
    frames_dict.

(** The names of the configuration whose picture loaded, in order. *)
Definition loaded_names (config : list (string * option Image)) : list string :=
  map fst
    (List.filter (fun e => match snd e with Some _ => true | None => false end) config).

(** The entries of a dictionary on which the oracle reports a verified
    match. *)
Definition only_verified (ref : Image) (frames_dict : list (Z * Frame))
  : list (Z * Frame) :=
  List.filter
    (fun entry => match verify (snd entry) ref with Result true _ => true | _ => false end)
    frames_dict.

(** A bound on the steps a worker thread has left. *)
Definition steps_left (w : Worker) : nat :=
  match w with
  | AtPerson pending => 4 * length pending + 2
  | AtStoreMatch _ _ pending => 4 * length pending + 5
  | AtStoreCam _ _ pending => 4 * length pending + 4
  | AtStoreDist _ _ pending => 4 * length pending + 3
  | AtFinally _ => 1
  end.

(** The number of main-loop iterations in a schedule. *)
Definition ticks (schedule : list Event) : nat :=
  length
    (List.filter (fun ev => match ev with Tick _ => true | Work _ => false end) schedule).

(** The capture objects as the [enumerate] loop of an iteration finds them:
    camera 0 has been read once already. *)
Definition after_first_read (cs : list (VideoCapture Frame)) : list (VideoCapture Frame) :=
  match cs with
  | [] => []
  | cap0 :: rest => snd (read cap0) :: rest
  end.

(** A camera index and a distance a record may hold with [ncaps] cameras:
    index -1 or the index of a camera, distance at most 10.0. *)
Definition sane (ncaps : nat) (c : Z) (d : float) : Prop :=
  (c = (-1)%Z \/ (0 <= c < Z.of_nat ncaps)%Z) /\ (d <=? 10)%float = true.

(** The accumulators a worker position carries are sane. *)
Definition sane_worker (ncaps : nat) (w : Worker) : Prop :=
  match w with
  | AtStoreMatch _ b _ | AtStoreCam _ b _ | AtStoreDist _ b _ =>
      sane ncaps (current_best_cam b) (current_best_dist b)
  | _ => True
  end.

(** The keys of a dictionary are camera indices. *)
Definition keys_in_range (ncaps : nat) (frames_dict : list (Z * Frame)) : Prop :=
  Forall (fun k => (0 <= k < Z.of_nat ncaps)%Z) (keys frames_dict).

(** Every record and every worker thread of a state is sane. *)
Definition sane_system (s : System Frame Image) : Prop :=
  let n := length (caps (globals s)) in
  (forall name r, people_status (globals s) !! name = Some r ->
     sane n (best_cam_index r) (distance r)) /\
  (forall t, t ∈ threads s ->
     keys_in_range n (frames_copy t) /\ sane_worker n (pc t)).

(** What an iteration showed, unless it raised. *)
Definition shown_of (r : TickResult Frame Image) : option (Shown Frame) :=
  match r with
  | Continue _ out | Quit _ out => Some out
  | Uncaught _ => None
  end.

(** A pass in flight on [frames_dict] that, left alone, ends with the
    records [final]. *)
Definition heading_for (final : gmap string (Status Image))
    (frames_dict : list (Z * Frame)) (s : System Frame Image) : Prop :=
  is_processing (globals s) = true /\
  exists w n g',
    threads s = [mkThread frames_dict w] /\
    worker_steps verify n frames_dict w (globals s) = (None, g') /\
    people_status g' = final.


(** The capture objects after [n] iterations of the main loop: camera 0 has
    been read [2 * n] times more, every other camera [n] times more. *)
Definition advance (n : nat) (cs : list (VideoCapture Frame)) : list (VideoCapture Frame) :=
  match cs with
  | [] => []
  | cap0 :: rest =>
      mkCap (feed cap0) (cursor cap0 + 2 * n)
      :: map (fun cap => mkCap (feed cap) (cursor cap + n)) rest
  end.


(** Entry number [i] of the dictionary, in iteration order, reports a
    verified match at distance [d] for camera [c]. *)
Definition verified_entry (ref : Image) (frames_dict : list (Z * Frame))
    (i : nat) (c : Z) (d : float) : Prop :=
  exists f, frames_dict !! i = Some (c, f) /\ verify f ref = Result true d.


(** No capture object of the list ever delivers a frame. *)
Definition silent (cs : list (VideoCapture Frame)) : Prop :=
  forall cap, cap ∈ cs -> forall n, feed cap n = None.

End Vocabulary.

(** ** Concrete configurations

    A frame is named by the camera that took it and by the number of the
    [read] call that delivered it; a reference image by its file name. *)

Module Scenario.

Definition frame : Type := (Z * nat)%type.
Definition image : Type := string.

(** A camera that delivers a frame at every call, and one that never does. *)
Definition live (c : Z) : VideoCapture frame := mkCap (fun n => Some (c, n)) 0.
Definition dead : VideoCapture frame := mkCap (fun _ => None) 0.

(** Two people with loadable pictures; one person whose picture is missing. *)
Definition two_people : list (string * option image) :=
  [("A"%string, Some "A.png"%string); ("B"%string, Some "B.png"%string)].
Definition nobody : list (string * option image) := [("A"%string, None)].

(** Camera 0 verifies person A at 0.25, camera 1 at 0.375; B is verified
    nowhere. *)
Definition verify_two (f : frame) (ref : image) : VerifyResult :=
  if String.eqb ref "A.png" then
    if fst f =? 0 then Result true 0.25%float
    else if fst f =? 1 then Result true 0.375%float
    else Result false 0.75%float
  else Result false 0.75%float.

(** The oracle raises on the frames of camera 0 and verifies on the others. *)
Definition verify_raising (f : frame) (ref : image) : VerifyResult :=
  if fst f =? 0 then Raised else Result true 0.25%float.

(** Every pair is verified, at distance 12.0, respectively 10.0. *)
Definition verify_far (f : frame) (ref : image) : VerifyResult := Result true 12%float.
Definition verify_edge (f : frame) (ref : image) : VerifyResult := Result true 10%float.

(** The dictionaries the first iteration captures from two live cameras, and
    from one. *)
Definition two_frames : list (Z * frame) := [(0, (0, 1%nat)); (1, (1, 0%nat))].
Definition one_frame : list (Z * frame) := [(0, (0, 1%nat))].

(** The state at the entry of the main loop. *)
Definition two_cameras : System frame image := startup two_people [live 0; live 1].
Definition one_camera : System frame image := startup two_people [live 0].

(** The main thread starts a pass, the worker scans the cameras for A and
    runs lines 115 and 116. *)
Definition until_line_116 : list Event := [Tick false; Work 0; Work 0; Work 0].

(** The state right after the first iteration has started a pass, and the
    state after [until_line_116]. *)
Definition after_first_tick : System frame image :=
  match run verify_two [Tick false] two_cameras with
  | Running s => s
  | Exited _ => two_cameras
  end.
Definition at_line_116 : System frame image :=
  match run verify_two until_line_116 two_cameras with
  | Running s => s
  | Exited _ => two_cameras
  end.

(** The records another oracle left behind. *)
Definition after_far_pass : Globals frame image :=
  fst (process_multi_camera verify_far two_frames (globals two_cameras)).

(** Every pair is verified at distance 0.25. *)
Definition verify_tie (f : frame) (ref : image) : VerifyResult := Result true 0.25%float.

(** A dictionary that is not in ascending key order. *)
Definition reversed_frames : list (Z * frame) := [(1, (1, 0%nat)); (0, (0, 1%nat))].

(** The nine steps of the first pass up to its [finally], with iterations of
    the main loop in between, and the state they lead to. *)
Definition interleaved : list Event :=
  [Work 0; Tick false; Work 0; Work 0; Tick false; Work 0; Work 0; Work 0;
   Tick false; Work 0; Work 0; Work 0].
Definition before_finally : System frame image :=
  match run_in_flight verify_two interleaved after_first_tick with
  | Some s => s
  | None => after_first_tick
  end.

(** One camera that never delivers, and the state after one iteration. *)
Definition dead_camera : System frame image := startup two_people [dead].
Definition after_dead_tick : System frame image :=
  match run verify_two [Tick false] dead_camera with
  | Running s => s
  | Exited _ => dead_camera
  end.


(** The first pass runs to its end and 29 more iterations follow: the state
    in which the second pass is due, and the state after it has started. *)
Definition second_round : list Event := replicate 10 (Work 0) ++ replicate 29 (Tick false).
Definition at_counter_30 : System frame image :=
  match run verify_two second_round after_first_tick with
  | Running s => s
  | Exited _ => after_first_tick
  end.
Definition after_second_start : System frame image :=
  match run verify_two [Tick false] at_counter_30 with
  | Running s => s
  | Exited _ => at_counter_30
  end.


(** The first pass has run to its end: no thread is left, the counter is 1. *)
Definition after_first_pass : System frame image :=
  match run verify_two (replicate 10 (Work 0)) after_first_tick with
  | Running s => s
  | Exited _ => after_first_tick
  end.

(** The state a schedule leads to, if the process is still running. *)
Definition state_after {Frame Image : Type} (r : RunResult Frame Image)
  : option (System Frame Image) :=
  match r with
  | Running s => Some s
  | Exited _ => None
  end.

(** The windows an iteration shows. *)
Definition windows_of {Frame Image : Type} (r : TickResult Frame Image)
  : option (list (string * View Frame)) :=
  match r with
  | Continue _ (Windows vs) | Quit _ (Windows vs) => Some vs
  | _ => None
  end.

End Scenario.

(** ** The order of binary64 values *)

(** [SpecFloat] compares mantissas with the kernel's [compare_cont]; the lemmas
    of the library speak of [Pos.compare]. *)
Ltac norm_cmp :=
  repeat match goal with
  | |- context [PosDef.Pos.compare_cont Eq ?a ?b] =>
      change (PosDef.Pos.compare_cont Eq a b) with (Pos.compare a b)
  end.

Lemma SFcompare_flip x y : SFcompare y x = option_map CompOpp (SFcompare x y).
Proof.
  destruct x as [sx|sx| |sx mx ex], y as [sy|sy| |sy my ey]; simpl; try reflexivity;
    try (destruct sx; reflexivity); try (destruct sy; reflexivity);
    try (destruct sx, sy; reflexivity).
  norm_cmp.
  destruct sx, sy; simpl; try reflexivity;
    rewrite (Z.compare_antisym ey ex), (Pos.compare_antisym my mx);
    destruct (ey ?= ex); simpl; try reflexivity;
    destruct (my ?= mx)%positive; reflexivity.
Qed.

Lemma SFleb_trans x y z : SFleb x y = true -> SFleb y z = true -> SFleb x z = true.
Proof.
  unfold SFleb.
  destruct x as [sx|sx| |sx mx ex], y as [sy|sy| |sy my ey], z as [sz|sz| |sz mz ez];
    simpl; try discriminate; try reflexivity;
    repeat match goal with s : bool |- _ => destruct s end; simpl;
    try discriminate; try reflexivity; norm_cmp.
  all: repeat match goal with
       | |- context [(?a ?= ?b)] => destruct (Z.compare_spec a b)
       | |- context [(?a ?= ?b)%positive] => destruct (Pos.compare_spec a b)
       end; simpl; try discriminate; try reflexivity; intros; subst; try lia.
Qed.

Lemma SFcompare_None x y :
  SFcompare x y = None -> SFcompare x x = None \/ SFcompare y y = None.
Proof.
  destruct x as [sx|sx| |sx mx ex], y as [sy|sy| |sy my ey]; simpl; auto;
    repeat match goal with s : bool |- _ => destruct s end; discriminate.
Qed.

Section FloatOrder.

Local Open Scope float_scope.

Lemma ltb_compare x y : (x <? y) = true <-> SFcompare (Prim2SF x) (Prim2SF y) = Some Lt.
Proof.
  rewrite FloatAxioms.ltb_spec. unfold SFltb.
  destruct (SFcompare (Prim2SF x) (Prim2SF y)) as [[]|]; split; congruence.
Qed.

Lemma eqb_compare x y : (x =? y) = true <-> SFcompare (Prim2SF x) (Prim2SF y) = Some Eq.
Proof.
  rewrite FloatAxioms.eqb_spec. unfold SFeqb.
  destruct (SFcompare (Prim2SF x) (Prim2SF y)) as [[]|]; split; congruence.
Qed.

Lemma leb_compare x y :
  (x <=? y) = true <->
  SFcompare (Prim2SF x) (Prim2SF y) = Some Lt \/ SFcompare (Prim2SF x) (Prim2SF y) = Some Eq.
Proof.
  rewrite FloatAxioms.leb_spec. unfold SFleb.
  destruct (SFcompare (Prim2SF x) (Prim2SF y)) as [[]|]; split;
    (congruence || auto || (intros [|]; congruence)).
Qed.

Lemma ltb_leb x y : (x <? y) = true -> (x <=? y) = true.
Proof. rewrite ltb_compare, leb_compare. auto. Qed.

Lemma eqb_leb x y : (x =? y) = true -> (x <=? y) = true.
Proof. rewrite eqb_compare, leb_compare. auto. Qed.

Lemma leb_trans x y z : (x <=? y) = true -> (y <=? z) = true -> (x <=? z) = true.
Proof. rewrite !FloatAxioms.leb_spec. apply SFleb_trans. Qed.

(** [y < x] excludes [x <= y]. *)
Lemma ltb_not_leb x y : (y <? x) = true -> (x <=? y) = false.
Proof.
  rewrite ltb_compare. intros H.
  destruct (x <=? y) eqn:E; [|reflexivity].
  apply leb_compare in E.
  rewrite (SFcompare_flip (Prim2SF y) (Prim2SF x)), H in E. simpl in E.
  destruct E; discriminate.
Qed.

Lemma eqb_sym x y : (x =? y) = true -> (y =? x) = true.
Proof.
  rewrite !eqb_compare. intros H.
  rewrite SFcompare_flip, H. reflexivity.
Qed.

(** A strict step after a weak one is strict. *)
Lemma leb_ltb_trans x y z : (x <=? y) = true -> (y <? z) = true -> (x <? z) = true.
Proof.
  intros Hxy Hyz.
  pose proof (leb_trans _ _ _ Hxy (ltb_leb _ _ Hyz)) as Hxz.
  apply leb_compare in Hxz. destruct Hxz as [Hlt|Heq].
  - now apply ltb_compare.
  - apply eqb_compare, eqb_sym, eqb_leb in Heq.
    pose proof (leb_trans _ _ _ Heq Hxy) as Hzy.
    rewrite (ltb_not_leb _ _ Hyz) in Hzy. discriminate.
Qed.

Lemma ltb_trans x y z : (x <? y) = true -> (y <? z) = true -> (x <? z) = true.
Proof. intros H. apply leb_ltb_trans, ltb_leb, H. Qed.

Lemma ltb_irrefl x : (x <? x) = false.
Proof.
  destruct (x <? x) eqn:E; [|reflexivity].
  pose proof (ltb_not_leb _ _ E) as H.
  rewrite (ltb_leb _ _ E) in H. discriminate.
Qed.

(** Two values that are numbers compare one way or the other. *)
Lemma ltb_false_leb x y :
  (x =? x) = true -> (y =? y) = true -> (x <? y) = false -> (y <=? x) = true.
Proof.
  rewrite !eqb_compare. intros Hx Hy Hlt.
  apply leb_compare. rewrite SFcompare_flip.
  destruct (SFcompare (Prim2SF x) (Prim2SF y)) as [[]|] eqn:E; simpl; auto.
  - apply ltb_compare in E. congruence.
  - apply SFcompare_None in E. destruct E; congruence.
Qed.

(** What is below some value is a number. *)
Lemma ltb_number x y : (x <? y) = true -> (x =? x) = true.
Proof.
  rewrite ltb_compare, eqb_compare. intros H.
  destruct (SFcompare (Prim2SF x) (Prim2SF x)) as [[]|] eqn:E; auto.
  - exfalso. assert (Hl : (x <? x) = true) by now apply ltb_compare.
    rewrite ltb_irrefl in Hl. discriminate.
  - exfalso. pose proof (SFcompare_flip (Prim2SF x) (Prim2SF x)) as Hf.
    rewrite E in Hf. discriminate.
  - exfalso. destruct (Prim2SF x) as [s|s| |s m e]; simpl in E, H;
      try discriminate; repeat match goal with b : bool |- _ => destruct b end;
      discriminate.
Qed.

End FloatOrder.

(** ** The camera loop *)

Section CameraLoop.

Context {Frame Image : Type}.
Variable verify : Frame -> Image -> VerifyResult.

Local Open Scope float_scope.

Lemma check_every_camera_snoc (ref : Image) (l : list (Z * Frame)) (e : Z * Frame) :
  check_every_camera verify ref (l ++ [e])
  = check_camera verify ref (check_every_camera verify ref l) e.
Proof. unfold check_every_camera. now rewrite fold_left_app. Qed.

Lemma verified_at_snoc (ref : Image) (l : list (Z * Frame)) (e : Z * Frame) c d :
  verified_at verify ref (l ++ [e]) c d <->
  verified_at verify ref l c d \/ (c = fst e /\ verify (snd e) ref = Result true d).
Proof.
  unfold verified_at. split.
  - intros (f & Hin & Hv). apply elem_of_app in Hin as [Hin|Hin].
    + left. eauto.
    + apply list_elem_of_singleton in Hin. subst e. right. auto.
  - intros [(f & Hin & Hv)|[-> Hv]].
    + exists f. split; [apply elem_of_app; auto | exact Hv].
    + exists (snd e). split; [|exact Hv].
      apply elem_of_app. right. destruct e. apply list_elem_of_singleton. reflexivity.
Qed.

Lemma ascending_snoc (l : list (Z * Frame)) (e : Z * Frame) :
  ascending (l ++ [e]) ->
  ascending l /\ forall c f, (c, f) ∈ l -> (c < fst e)%Z.
Proof.
  unfold ascending, keys. rewrite map_app. simpl. intros H. split.
  - eapply StronglySorted_app_1_l, H.
  - intros c f Hin. eapply (StronglySorted_app_1_elem_of _ _ _ c (fst e) H).
    + apply list_elem_of_In. apply list_elem_of_In in Hin.
      apply (in_map fst) in Hin. exact Hin.
    + apply list_elem_of_singleton. reflexivity.
Qed.

(** The match flag is set exactly when some camera verified. *)
Lemma check_every_camera_found (ref : Image) (frames_dict : list (Z * Frame)) :
  found_match (check_every_camera verify ref frames_dict) = true <->
  exists c d, verified_at verify ref frames_dict c d.
Proof.
  induction frames_dict as [|e l IH] using rev_ind.
  - simpl. split; [discriminate|].
    intros (c & d & f & Hin & _). inversion Hin.
  - rewrite check_every_camera_snoc. unfold check_camera.
    destruct (verify (snd e) ref) as [[|] d|] eqn:Hv.
    + split; [intros _|].
      * exists (fst e), d. apply verified_at_snoc. right. auto.
      * intros _. now destruct (d <? _).
    + rewrite IH. split; intros (c & d' & H); exists c, d'.
      * apply verified_at_snoc. auto.
      * apply verified_at_snoc in H as [H|[_ H]]; [exact H | congruence].
    + rewrite IH. split; intros (c & d' & H); exists c, d'.
      * apply verified_at_snoc. auto.
      * apply verified_at_snoc in H as [H|[_ H]]; [exact H | congruence].
Qed.

Lemma check_every_camera_best (ref : Image) (frames_dict : list (Z * Frame)) :
  ascending frames_dict ->
  let b := check_every_camera verify ref frames_dict in
  untouched verify ref frames_dict b \/ least verify ref frames_dict b.
Proof.
  induction frames_dict as [|e l IH] using rev_ind; intros Hasc; simpl.
  - left. repeat split. intros c d (f & Hin & _). inversion Hin.
  - apply ascending_snoc in Hasc as [Hasc Hlt]. specialize (IH Hasc). simpl in IH.
    rewrite check_every_camera_snoc. unfold check_camera.
    set (b := check_every_camera verify ref l) in *.
    destruct (verify (snd e) ref) as [[|] d|] eqn:Hv.
    + destruct (d <? current_best_dist b) eqn:Hd.
      * (* the new camera wins *)
        right.
        assert (Hbelow : forall c' d', verified_at verify ref l c' d' ->
                  (d' <? current_best_dist b) = false).
        { intros c' d' H'. destruct IH as [(_ & -> & H)|(_ & _ & H)]; [eauto|].
          apply (H c' d' H'). }
        assert (H10 : (d <? 10) = true).
        { destruct IH as [(_ & E & _)|(Hb & _)]; [now rewrite <- E|].
          eapply ltb_trans; eauto. }
        split; [exact H10|]. simpl. split.
        { apply verified_at_snoc. right. auto. }
        intros c' d' H'. apply verified_at_snoc in H' as [H'|[-> H']].
        -- split.
           ++ destruct (d' <? d) eqn:E; [|reflexivity].
              rewrite <- (Hbelow c' d' H'). symmetry. eapply ltb_trans; eauto.
           ++ intros E. exfalso. apply eqb_leb in E.
              pose proof (leb_ltb_trans _ _ _ E Hd) as C.
              rewrite (Hbelow c' d' H') in C. discriminate.
        -- rewrite Hv in H'. injection H' as <-. split; [apply ltb_irrefl | lia].
      * (* the accumulators stay *)
        destruct IH as [(Hc & Hd10 & H)|(Hb & Hin & H)].
        -- left. repeat split; simpl; auto.
           intros c' d' H'. apply verified_at_snoc in H' as [H'|[_ H']]; [eauto|].
           rewrite Hv in H'. injection H' as <-. now rewrite <- Hd10.
        -- right. split; [exact Hb|]. simpl. split.
           { apply verified_at_snoc. auto. }
           intros c' d' H'. apply verified_at_snoc in H' as [H'|[-> H']]; [eauto|].
           rewrite Hv in H'. injection H' as <-. split; [exact Hd|].
           intros _. destruct Hin as (f & Hin & _).
           specialize (Hlt _ _ Hin). lia.
    + destruct IH as [(Hc & Hd10 & H)|(Hb & Hin & H)].
      * left. repeat split; auto. intros c' d' H'.
        apply verified_at_snoc in H' as [H'|[_ H']]; [eauto | congruence].
      * right. split; [exact Hb|]. split; [apply verified_at_snoc; auto|].
        intros c' d' H'.
        apply verified_at_snoc in H' as [H'|[_ H']]; [eauto | congruence].
    + destruct IH as [(Hc & Hd10 & H)|(Hb & Hin & H)].
      * left. repeat split; auto. intros c' d' H'.
        apply verified_at_snoc in H' as [H'|[_ H']]; [eauto | congruence].
      * right. split; [exact Hb|]. split; [apply verified_at_snoc; auto|].
        intros c' d' H'.
        apply verified_at_snoc in H' as [H'|[_ H']]; [eauto | congruence].
Qed.

(** A camera for which the oracle raises, or does not verify, leaves the
    accumulators as they were. *)
Lemma check_camera_skip (ref : Image) (b : Best) (e : Z * Frame) :
  (forall d, verify (snd e) ref <> Result true d) ->
  check_camera verify ref b e = b.
Proof.
  intros H. unfold check_camera.
  destruct (verify (snd e) ref) as [[|] d|]; try reflexivity.
  now destruct (H d).
Qed.

Lemma fold_check_camera_skip (ref : Image) (l : list (Z * Frame)) (b : Best) :
  (forall c f d, (c, f) ∈ l -> verify f ref <> Result true d) ->
  fold_left (check_camera verify ref) l b = b.
Proof.
  revert b. induction l as [|[c f] l IH]; intros b H; simpl; [reflexivity|].
  rewrite check_camera_skip.
  - apply IH. intros c' f' d Hin. apply (H c' f' d). now right.
  - intros d. apply (H c f d). now left.
Qed.

End CameraLoop.

(** ** The loop over the people *)

Section PeopleLoop.

Context {Frame Image : Type}.
Variable verify : Frame -> Image -> VerifyResult.

Lemma update_status_lookup (name n : string) (b : Best)
    (ps : gmap string (Status Image)) :
  update_status name b ps !! n
  = if decide (n = name)
    then (fun r => mkStatus (current_best_cam b) (current_best_dist b)
                     (found_match b) (ref_img r)) <$> ps !! n
    else ps !! n.
Proof.
  unfold update_status, store_distance, store_best_cam_index, store_is_match.
  destruct (decide (n = name)) as [->|Hne].
  - rewrite !lookup_alter_eq. now destruct (ps !! name).
  - now rewrite !lookup_alter_ne by congruence.
Qed.

Lemma published_ref_img (frames_dict : list (Z * Frame)) (r : Status Image) :
  ref_img (published verify frames_dict r) = ref_img r.
Proof. reflexivity. Qed.

Lemma published_idem (frames_dict : list (Z * Frame)) (r : Status Image) :
  published verify frames_dict (published verify frames_dict r)
  = published verify frames_dict r.
Proof. reflexivity. Qed.

Lemma reached_ext (names : list string) (ps ps' : gmap string (Status Image)) :
  (forall n, is_Some (ps' !! n) <-> is_Some (ps !! n)) ->
  reached names ps' = reached names ps.
Proof.
  intros H. induction names as [|name rest IH]; simpl; [reflexivity|].
  destruct (ps !! name) eqn:E, (ps' !! name) eqn:E'.
  - now rewrite IH.
  - assert (X : is_Some (ps' !! name)) by (apply H; rewrite E; eauto).
    rewrite E' in X. destruct X; discriminate.
  - assert (X : is_Some (ps !! name)) by (apply H; rewrite E'; eauto).
    rewrite E in X. destruct X; discriminate.
  - reflexivity.
Qed.

Lemma update_status_is_Some (name n : string) (b : Best)
    (ps : gmap string (Status Image)) :
  is_Some (update_status name b ps !! n) <-> is_Some (ps !! n).
Proof.
  rewrite update_status_lookup. destruct (decide (n = name)); [|reflexivity].
  now rewrite fmap_is_Some.
Qed.

(** What the loop leaves under every key: the published record for the
    people it reached, the old record for the others. *)
Lemma for_every_person_lookup (frames_dict : list (Z * Frame)) (names : list string)
    (ps : gmap string (Status Image)) (n : string) :
  fst (for_every_person verify frames_dict names ps) !! n
  = (fun r => if decide (n ∈ reached names ps)
              then published verify frames_dict r else r) <$> ps !! n.
Proof.
  revert ps. induction names as [|name rest IH]; intros ps; simpl.
  - destruct (ps !! n); simpl; [|reflexivity].
    destruct (decide (n ∈ [])) as [H|_]; [inversion H | reflexivity].
  - destruct (ps !! name) as [r|] eqn:Hname; simpl.
    + rewrite IH, update_status_lookup.
      rewrite (reached_ext rest ps) by (intros; apply update_status_is_Some).
      destruct (decide (n = name)) as [->|Hne].
      * rewrite Hname. simpl. f_equal.
        destruct (decide (name ∈ name :: reached rest ps)) as [_|C];
          [|destruct C; now left].
        now destruct (decide (name ∈ reached rest ps)).
      * destruct (ps !! n); simpl; [|reflexivity]. f_equal.
        destruct (decide (n ∈ reached rest ps)) as [H|H],
                 (decide (n ∈ name :: reached rest ps)) as [H'|H']; try reflexivity.
        -- destruct H'. now right.
        -- apply elem_of_cons in H' as [->|H']; [congruence | contradiction].
    + destruct (ps !! n); simpl; [|reflexivity].
      destruct (decide (n ∈ [])) as [H|_]; [inversion H | reflexivity].
Qed.

Lemma reached_all (names : list string) (ps : gmap string (Status Image)) :
  (forall n, n ∈ names -> is_Some (ps !! n)) -> reached names ps = names.
Proof.
  induction names as [|name rest IH]; intros H; simpl; [reflexivity|].
  destruct (H name) as [r ->]; [now left|].
  rewrite IH; [reflexivity|]. intros n Hn. apply H. now right.
Qed.

Lemma for_every_person_outcome (frames_dict : list (Z * Frame)) (names : list string)
    (ps : gmap string (Status Image)) :
  snd (for_every_person verify frames_dict names ps)
  = if decide (reached names ps = names) then Completed else ThreadError.
Proof.
  revert ps. induction names as [|name rest IH]; intros ps; simpl.
  - now destruct (decide (@nil string = [])).
  - destruct (ps !! name) as [r|] eqn:Hname; simpl.
    + rewrite IH.
      rewrite (reached_ext rest ps) by (intros; apply update_status_is_Some).
      destruct (decide (reached rest ps = rest)) as [H|H],
               (decide (name :: reached rest ps = name :: rest)) as [H'|H'];
        try reflexivity; exfalso; congruence.
    + destruct (decide (@nil string = name :: rest)); [discriminate | reflexivity].
Qed.

(** With every person registered the pass completes and publishes a record
    for each of them. *)
Lemma pass_publishes (frames_dict : list (Z * Frame)) (g : Globals Frame Image)
    (name : string) (r : Status Image) :
  registered g -> name ∈ valid_people g -> people_status g !! name = Some r ->
  people_status (fst (process_multi_camera verify frames_dict g)) !! name
  = Some (published verify frames_dict r).
Proof.
  intros Hreg Hin Hr. unfold process_multi_camera. simpl.
  rewrite for_every_person_lookup, Hr, (reached_all _ _ Hreg). simpl.
  now destruct (decide (name ∈ valid_people g)).
Qed.

Lemma pass_completes (frames_dict : list (Z * Frame)) (g : Globals Frame Image) :
  registered g -> snd (process_multi_camera verify frames_dict g) = Completed.
Proof.
  intros Hreg. unfold process_multi_camera. simpl.
  rewrite for_every_person_outcome, (reached_all _ _ Hreg).
  now destruct (decide (valid_people g = valid_people g)).
Qed.

End PeopleLoop.


(** ** The resolution pass *)

Section Pass.

Context {Frame Image : Type}.
Variable verify : Frame -> Image -> VerifyResult.

Local Open Scope float_scope.

Lemma load_reference_images_registered (config : list (string * option Image)) :
  forall name, name ∈ snd (load_reference_images config) ->
    is_Some (fst (load_reference_images config) !! name).
Proof.
  unfold load_reference_images.
  induction config as [|[n o] l IH] using rev_ind; simpl.
  - intros name H. inversion H.
  - rewrite fold_left_app. simpl.
    destruct o as [img|]; simpl; [|exact IH].
    intros name H. apply elem_of_app in H as [H|H].
    + destruct (decide (name = n)) as [->|Hne].
      * rewrite lookup_insert_eq. eauto.
      * rewrite lookup_insert_ne by congruence. auto.
    + apply list_elem_of_singleton in H as ->. rewrite lookup_insert_eq. eauto.
Qed.

Lemma registered_startup (config : list (string * option Image))
    (sources : list (VideoCapture Frame)) :
  registered (globals (startup config sources)).
Proof. intros name H. now apply load_reference_images_registered. Qed.

Lemma check_every_camera_without_raising (ref : Image) (frames_dict : list (Z * Frame)) :
  check_every_camera verify ref (without_raising verify ref frames_dict)
  = check_every_camera verify ref frames_dict.
Proof.
  unfold check_every_camera, without_raising. generalize initial_best.
  induction frames_dict as [|e l IH]; intros b; simpl; [reflexivity|].
  destruct (verify (snd e) ref) as [v d|] eqn:Hv; simpl.
  - rewrite IH. unfold check_camera at 2 4. now rewrite Hv.
  - rewrite IH. unfold check_camera at 3. now rewrite Hv.
Qed.

(** C5.  A person for whom no camera of the dictionary reports a verified
    match is published as not matched, with camera index -1 and the distance
    10.0 the accumulators start from. *)
Theorem unverified_person_published_as_searching
    (frames_dict : list (Z * Frame)) (g : Globals Frame Image)
    (name : string) (r : Status Image) :
  registered g ->
  name ∈ valid_people g ->
  people_status g !! name = Some r ->
  (forall c d, ~ verified_at verify (ref_img r) frames_dict c d) ->
  people_status (fst (process_multi_camera verify frames_dict g)) !! name
  = Some (mkStatus (-1) 10 false (ref_img r)).
Proof.
  intros Hreg Hin Hr Hnone.
  rewrite (pass_publishes verify frames_dict g name r Hreg Hin Hr).
  unfold published, check_every_camera.
  rewrite fold_check_camera_skip; [reflexivity|].
  intros c f d Hcf Hv. apply (Hnone c d). exists f. auto.
Qed.

(** C1, as the code has it.  When some camera reports a verified match at a
    distance below 10.0, the person is published as matched, the published
    distance is the least verified distance of the pass (no verified distance
    is smaller, and it is at most every verified distance that is a number),
    and the published camera is the lowest-indexed one reporting that
    distance. *)
Theorem published_best_is_least_verified
    (frames_dict : list (Z * Frame)) (g : Globals Frame Image)
    (name : string) (r : Status Image) (c0 : Z) (d0 : float) :
  ascending frames_dict ->
  registered g ->
  name ∈ valid_people g ->
  people_status g !! name = Some r ->
  verified_at verify (ref_img r) frames_dict c0 d0 ->
  (d0 <? 10) = true ->
  exists r',
    people_status (fst (process_multi_camera verify frames_dict g)) !! name = Some r' /\
    is_match r' = true /\
    verified_at verify (ref_img r) frames_dict (best_cam_index r') (distance r') /\
    forall c d, verified_at verify (ref_img r) frames_dict c d ->
      (d <? distance r') = false /\
      ((d =? d) = true -> (distance r' <=? d) = true) /\
      ((d =? distance r') = true -> (best_cam_index r' <= c)%Z).
Proof.
  intros Hasc Hreg Hin Hr Hv0 Hd0.
  exists (published verify frames_dict r). split.
  { now apply pass_publishes. }
  unfold published. simpl.
  set (b := check_every_camera verify (ref_img r) frames_dict).
  split.
  { apply check_every_camera_found. eauto. }
  destruct (check_every_camera_best verify (ref_img r) frames_dict Hasc)
    as [(_ & _ & H)|(Hb & Hbest & H)]; fold b in H |- *.
  { rewrite (H c0 d0 Hv0) in Hd0. discriminate. }
  fold b in Hb, Hbest. split; [exact Hbest|].
  intros c d Hv. destruct (H c d Hv) as [Hlt Htie].
  split; [exact Hlt|]. split; [|exact Htie].
  intros Hnum. apply ltb_false_leb; [exact Hnum | | exact Hlt].
  eapply ltb_number, Hb.
Qed.

Lemma check_every_camera_none (ref : Image) (frames_dict : list (Z * Frame)) :
  found_match (check_every_camera verify ref frames_dict) = false ->
  check_every_camera verify ref frames_dict = initial_best.
Proof.
  intros Hf. unfold check_every_camera. apply fold_check_camera_skip.
  intros c f d Hin Hv.
  assert (H : found_match (check_every_camera verify ref frames_dict) = true).
  { apply check_every_camera_found. exists c, d, f. auto. }
  congruence.
Qed.

Lemma verified_key (ref : Image) (frames_dict : list (Z * Frame)) c d :
  verified_at verify ref frames_dict c d -> c ∈ keys frames_dict.
Proof.
  intros (f & Hin & _). apply list_elem_of_In. apply list_elem_of_In in Hin.
  apply (in_map fst) in Hin. exact Hin.
Qed.

(** C2, as the code has it.  After a completed pass a record with the match
    flag set either names a camera (index at least 0) together with the least
    verified distance of the pass, which is below 10.0, or, when no verified
    distance of the pass is below 10.0, still holds camera index -1 and
    distance 10.0; a record with the flag cleared holds camera index -1. *)
Theorem published_status_invariant
    (frames_dict : list (Z * Frame)) (g : Globals Frame Image)
    (name : string) (r : Status Image) :
  ascending frames_dict ->
  Forall (fun k => (0 <= k)%Z) (keys frames_dict) ->
  registered g ->
  name ∈ valid_people g ->
  people_status g !! name = Some r ->
  snd (process_multi_camera verify frames_dict g) = Completed /\
  exists r',
    people_status (fst (process_multi_camera verify frames_dict g)) !! name = Some r' /\
    (is_match r' = true ->
       ((0 <= best_cam_index r')%Z /\
        (distance r' <? 10) = true /\
        verified_at verify (ref_img r) frames_dict (best_cam_index r') (distance r') /\
        forall c d, verified_at verify (ref_img r) frames_dict c d ->
          (d <? distance r') = false)
       \/
       (best_cam_index r' = (-1)%Z /\ distance r' = 10 /\
        forall c d, verified_at verify (ref_img r) frames_dict c d ->
          (d <? 10) = false)) /\
    (is_match r' = false -> best_cam_index r' = (-1)%Z).
Proof.
  intros Hasc Hpos Hreg Hin Hr. split; [now apply pass_completes|].
  exists (published verify frames_dict r). split.
  { now apply pass_publishes. }
  unfold published. simpl. split.
  - intros _.
    destruct (check_every_camera_best verify (ref_img r) frames_dict Hasc)
      as [(Hc & Hd & H)|(Hb & Hbest & H)].
    + right. auto.
    + left. split; [|split; [exact Hb|split; [exact Hbest|]]].
      * apply verified_key in Hbest. rewrite Forall_forall in Hpos. auto.
      * intros c d Hv. apply (H c d Hv).
  - intros Hf. now rewrite (check_every_camera_none _ _ Hf).
Qed.

Lemma verified_at_without_raising (ref : Image) (frames_dict : list (Z * Frame)) c d :
  verified_at verify ref (without_raising verify ref frames_dict) c d <->
  verified_at verify ref frames_dict c d.
Proof.
  unfold verified_at, without_raising. split; intros (f & Hin & Hv); exists f.
  - split; [|exact Hv]. apply list_elem_of_In.
    apply list_elem_of_In, filter_In in Hin. tauto.
  - split; [|exact Hv]. apply list_elem_of_In, filter_In.
    split; [now apply list_elem_of_In|]. simpl. now rewrite Hv.
Qed.

(** C6.  A camera on whose frame the oracle raises leaves the three
    accumulators as they were, and the pass goes on: it completes, and it
    publishes for every person the record the cameras without an error give.
    For the person at hand that record is worked out: with a camera that
    answered and verified below 10.0 the person is published as matched, with
    the least verified distance among the cameras that answered and the
    lowest-indexed camera reporting it; with no verified answer among them
    the person is published as not matched, with camera index -1 and
    distance 10.0. *)
Theorem oracle_error_skips_one_camera
    (frames_dict : list (Z * Frame)) (g : Globals Frame Image)
    (name : string) (r : Status Image) :
  ascending frames_dict ->
  registered g ->
  name ∈ valid_people g ->
  people_status g !! name = Some r ->
  (forall b e, verify (snd e) (ref_img r) = Raised ->
     check_camera verify (ref_img r) b e = b) /\
  snd (process_multi_camera verify frames_dict g) = Completed /\
  (forall name' r0, name' ∈ valid_people g -> people_status g !! name' = Some r0 ->
     people_status (fst (process_multi_camera verify frames_dict g)) !! name'
     = Some (published verify (without_raising verify (ref_img r0) frames_dict) r0)) /\
  exists r',
    people_status (fst (process_multi_camera verify frames_dict g)) !! name = Some r' /\
    ref_img r' = ref_img r /\
    ((forall c d,
        ~ verified_at verify (ref_img r)
            (without_raising verify (ref_img r) frames_dict) c d) ->
     is_match r' = false /\ best_cam_index r' = (-1)%Z /\ distance r' = 10) /\
    (forall c0 d0,
       verified_at verify (ref_img r)
         (without_raising verify (ref_img r) frames_dict) c0 d0 ->
       (d0 <? 10) = true ->
       is_match r' = true /\
       verified_at verify (ref_img r) (without_raising verify (ref_img r) frames_dict)
         (best_cam_index r') (distance r') /\
       forall c d,
         verified_at verify (ref_img r)
           (without_raising verify (ref_img r) frames_dict) c d ->
         (d <? distance r') = false /\
         ((d =? distance r') = true -> (best_cam_index r' <= c)%Z)).
Proof.
  intros Hasc Hreg Hin Hr. split; [|split; [|split]].
  - intros b e Hv. unfold check_camera. now rewrite Hv.
  - now apply pass_completes.
  - intros name' r0 Hin' Hr0.
    rewrite (pass_publishes verify frames_dict g name' r0 Hreg Hin' Hr0).
    unfold published. now rewrite check_every_camera_without_raising.
  - exists (published verify frames_dict r).
    split; [now apply pass_publishes|]. split; [reflexivity|].
    unfold published. simpl. split.
    + intros Hnone. unfold check_every_camera.
      rewrite fold_check_camera_skip; [auto|].
      intros c f d Hcf Hv. apply (Hnone c d).
      apply (proj2 (verified_at_without_raising _ _ _ _)). exists f. auto.
    + intros c0 d0 Hv0 Hd0. apply (proj1 (verified_at_without_raising _ _ _ _)) in Hv0.
      split; [apply check_every_camera_found; eauto|].
      destruct (check_every_camera_best verify (ref_img r) frames_dict Hasc)
        as [(_ & _ & H)|(_ & Hbest & H)].
      { rewrite (H c0 d0 Hv0) in Hd0. discriminate. }
      split; [now apply (proj2 (verified_at_without_raising _ _ _ _))|].
      intros c d Hv. apply (proj1 (verified_at_without_raising _ _ _ _)) in Hv.
      now apply H.
Qed.

Lemma pass_keeps_registered (frames_dict : list (Z * Frame)) (g : Globals Frame Image) :
  registered g -> registered (fst (process_multi_camera verify frames_dict g)).
Proof.
  intros Hreg name Hin. simpl in Hin. destruct (Hreg name Hin) as [r Hr].
  rewrite (pass_publishes verify frames_dict g name r Hreg Hin Hr). eauto.
Qed.

Lemma check_every_camera_ext (verify' : Frame -> Image -> VerifyResult)
    (ref : Image) (frames_dict : list (Z * Frame)) :
  (forall c f, (c, f) ∈ frames_dict -> verify f ref = verify' f ref) ->
  check_every_camera verify ref frames_dict = check_every_camera verify' ref frames_dict.
Proof.
  unfold check_every_camera. generalize initial_best.
  induction frames_dict as [|[c f] l IH]; intros b H; simpl; [reflexivity|].
  rewrite IH by (intros c' f' Hin; apply (H c' f'); now right).
  f_equal. unfold check_camera. simpl. rewrite (H c f) by now left. reflexivity.
Qed.

(** C7.  The records a pass publishes are determined by the dictionary, the
    reference images and the oracle's answers on them: two passes on the same
    dictionary whose oracles answer alike publish the same record for every
    person, whatever the records held before; in particular a second pass
    after the first changes nothing. *)
Theorem pass_determined_by_snapshot_and_answers
    (verify' : Frame -> Image -> VerifyResult)
    (frames_dict : list (Z * Frame)) (g g' : Globals Frame Image) :
  (forall c f ref, (c, f) ∈ frames_dict -> verify f ref = verify' f ref) ->
  valid_people g = valid_people g' ->
  registered g ->
  registered g' ->
  (forall name, name ∈ valid_people g ->
     ref_img <$> people_status g !! name = ref_img <$> people_status g' !! name) ->
  forall name, name ∈ valid_people g ->
    people_status (fst (process_multi_camera verify frames_dict g)) !! name
    = people_status (fst (process_multi_camera verify' frames_dict g')) !! name
    /\
    people_status (fst (process_multi_camera verify frames_dict
                          (fst (process_multi_camera verify frames_dict g)))) !! name
    = people_status (fst (process_multi_camera verify frames_dict g)) !! name.
Proof.
  intros Hsame Hvp Hreg Hreg' Href name Hin.
  destruct (Hreg name Hin) as [r Hr].
  assert (Hin' : name ∈ valid_people g') by now rewrite <- Hvp.
  destruct (Hreg' name Hin') as [r' Hr'].
  specialize (Href name Hin). rewrite Hr, Hr' in Href. simpl in Href.
  injection Href as Href.
  split.
  - rewrite (pass_publishes verify frames_dict g name r Hreg Hin Hr).
    rewrite (pass_publishes verify' frames_dict g' name r' Hreg' Hin' Hr').
    unfold published. rewrite <- Href.
    rewrite (check_every_camera_ext verify' (ref_img r) frames_dict); [reflexivity|].
    intros c f Hcf. now apply (Hsame c f).
  - pose proof (pass_publishes verify frames_dict g name r Hreg Hin Hr) as H1.
    rewrite (pass_publishes verify frames_dict _ name _
               (pass_keeps_registered frames_dict g Hreg) Hin H1).
    now rewrite H1, published_idem.
Qed.

(** C10.  A pass, completed or aborted, keeps the key set of [people_status]
    and every reference image; it changes nothing else in the records of the
    people it did not reach, and it leaves [valid_people], [caps] and
    [counter] alone. *)
Theorem pass_writes_only_reached_status_fields
    (frames_dict : list (Z * Frame)) (g : Globals Frame Image) :
  let g' := fst (process_multi_camera verify frames_dict g) in
  dom (people_status g') = dom (people_status g) /\
  valid_people g' = valid_people g /\ caps g' = caps g /\ counter g' = counter g /\
  forall name r, people_status g !! name = Some r ->
    exists r', people_status g' !! name = Some r' /\
      ref_img r' = ref_img r /\
      (name ∉ reached (valid_people g) (people_status g) -> r' = r).
Proof.
  simpl. split; [|split; [reflexivity|split; [reflexivity|split; [reflexivity|]]]].
  - apply set_eq. intros n. rewrite !elem_of_dom, for_every_person_lookup.
    now rewrite fmap_is_Some.
  - intros name r Hr. rewrite for_every_person_lookup, Hr. simpl.
    eexists. split; [reflexivity|].
    destruct (decide (name ∈ reached (valid_people g) (people_status g))) as [H|H].
    + split; [reflexivity|]. intros C. contradiction.
    + split; reflexivity.
Qed.

End Pass.

(** ** The worker, step by step *)

Section Steps.

Context {Frame Image : Type}.
Variable verify : Frame -> Image -> VerifyResult.

Lemma partly_published_ref_img k (frames_dict : list (Z * Frame)) (r : Status Image) :
  ref_img (partly_published verify k frames_dict r) = ref_img r.
Proof. destruct k as [|[|[|k]]]; reflexivity. Qed.

(** Run without interruption, the steps of the worker are the pass. *)
Lemma worker_steps_for_every_person (frames_dict : list (Z * Frame))
    (names : list string) (g : Globals Frame Image) :
  exists n,
    worker_steps verify n frames_dict (AtPerson names) g
    = (None,
       mkGlobals (fst (for_every_person verify frames_dict names (people_status g)))
         (valid_people g) (caps g) false (counter g)).
Proof.
  revert g. induction names as [|name rest IH]; intros g.
  - exists 2%nat. reflexivity.
  - simpl. destruct (people_status g !! name) as [r|] eqn:Hr.
    + destruct (IH (with_people_status g
                      (update_status name
                         (check_every_camera verify (ref_img r) frames_dict)
                         (people_status g)))) as [n Hn].
      exists (4 + n)%nat. simpl. rewrite Hr. simpl. exact Hn.
    + exists 2%nat. simpl. rewrite Hr. reflexivity.
Qed.

Lemma worker_steps_process_multi_camera (frames_dict : list (Z * Frame))
    (g : Globals Frame Image) :
  exists n,
    worker_steps verify n frames_dict (AtPerson (valid_people g)) g
    = (None, fst (process_multi_camera verify frames_dict g)).
Proof. apply worker_steps_for_every_person. Qed.

Lemma in_pass_start (frames_dict : list (Z * Frame)) (names : list string)
    (ps : gmap string (Status Image)) :
  in_pass verify ps frames_dict (AtPerson names) ps.
Proof.
  split; [exact I|]. intros name r Hr. exists 0%nat. split; [simpl; lia | exact Hr].
Qed.

(** One step of the worker keeps every record among the four stages. *)
Lemma worker_step_in_pass (ps0 : gmap string (Status Image))
    (frames_dict : list (Z * Frame)) (w w' : Worker) (g g' : Globals Frame Image) :
  in_pass verify ps0 frames_dict w (people_status g) ->
  worker_step verify frames_dict w g = (Some w', g') ->
  in_pass verify ps0 frames_dict w' (people_status g').
Proof.
  intros [Hc Hrec] Hstep.
  destruct w as [[|n rest]|n b rest|n b rest|n b rest|o]; simpl in Hstep.
  - injection Hstep as <- <-. split; [exact I|].
    intros name r Hr. destruct (Hrec name r Hr) as (k & _ & Hk).
    exists k. split; [simpl; lia | exact Hk].
  - destruct (people_status g !! n) as [rn|] eqn:Hn; injection Hstep as <- <-.
    + split.
      * intros r Hr. destruct (Hrec n r Hr) as (k & _ & Hk).
        rewrite Hk in Hn. injection Hn as <-.
        now rewrite partly_published_ref_img.
      * intros name r Hr. destruct (Hrec name r Hr) as (k & _ & Hk).
        exists k. split; [simpl; lia | exact Hk].
    + split; [exact I|].
      intros name r Hr. destruct (Hrec name r Hr) as (k & _ & Hk).
      exists k. split; [simpl; lia | exact Hk].
  - injection Hstep as <- <-. split; [exact Hc|]. simpl.
    intros name r Hr. destruct (Hrec name r Hr) as (k & _ & Hk).
    unfold store_is_match. destruct (decide (name = n)) as [->|Hne].
    + rewrite lookup_alter_eq, Hk. simpl. rewrite (Hc r Hr).
      exists (Nat.max 1 k). split; [lia|].
      destruct k as [|[|[|k]]]; reflexivity.
    + rewrite lookup_alter_ne by congruence. exists k. split; [lia | exact Hk].
  - injection Hstep as <- <-. split; [exact Hc|]. simpl.
    intros name r Hr. destruct (Hrec name r Hr) as (k & Hs & Hk).
    unfold store_best_cam_index. simpl in Hs.
    destruct (decide (name = n)) as [->|Hne].
    + rewrite lookup_alter_eq, Hk. simpl. rewrite (Hc r Hr).
      exists (Nat.max 2 k). split; [lia|].
      destruct k as [|[|[|k]]]; try reflexivity. lia.
    + rewrite lookup_alter_ne by congruence. exists k. split; [lia | exact Hk].
  - injection Hstep as <- <-. split; [exact I|]. simpl.
    intros name r Hr. destruct (Hrec name r Hr) as (k & Hs & Hk).
    unfold store_distance. simpl in Hs.
    destruct (decide (name = n)) as [->|Hne].
    + rewrite lookup_alter_eq, Hk. simpl. rewrite (Hc r Hr).
      exists 3%nat. split; [lia|].
      destruct k as [|[|[|k]]]; try reflexivity; lia.
    + rewrite lookup_alter_ne by congruence. exists k. split; [lia | exact Hk].
  - discriminate.
Qed.

End Steps.

(** ** The main loop and the dispatch gate *)

Section Scheduler.

Context {Frame Image : Type}.
Variable verify : Frame -> Image -> VerifyResult.

(** The cases of one iteration. *)
Ltac tick_cases s key :=
  unfold tick;
  destruct (capture (caps (globals s))) as [e|[[|entry more] caps']] eqn:Hcap;
  [| |match goal with
      | |- context [display ?f ?n ?p] => destruct (display f n p) as [vs|] eqn:Hdisp
      end];
  destruct key; simpl.

Lemma is_Some_alter (f : Status Image -> Status Image) (k n : string)
    (ps : gmap string (Status Image)) :
  is_Some (alter f k ps !! n) <-> is_Some (ps !! n).
Proof.
  destruct (decide (n = k)) as [->|Hne].
  - rewrite lookup_alter_eq. apply fmap_is_Some.
  - now rewrite lookup_alter_ne by congruence.
Qed.

Lemma worker_step_globals (frames_dict : list (Z * Frame)) (w : Worker)
    (g : Globals Frame Image) :
  let r := worker_step verify frames_dict w g in
  valid_people (snd r) = valid_people g /\ caps (snd r) = caps g /\
  counter (snd r) = counter g /\
  (forall n, is_Some (people_status (snd r) !! n) <-> is_Some (people_status g !! n)) /\
  match fst r with
  | Some _ => is_processing (snd r) = is_processing g
  | None => is_processing (snd r) = false
  end.
Proof.
  destruct w as [[|n rest]|n b rest|n b rest|n b rest|o]; simpl;
    try (destruct (people_status g !! n)); simpl;
    (split; [reflexivity|split; [reflexivity|split; [reflexivity|split;
       [intros m|reflexivity]]]]);
    try reflexivity;
    unfold store_is_match, store_best_cam_index, store_distance;
    apply is_Some_alter.
Qed.

Lemma run_invariant (P : System Frame Image -> Prop) :
  (forall key s s' out, P s -> tick key s = Continue s' out -> P s') ->
  (forall tid s, P s -> P (work verify tid s)) ->
  forall schedule s0 s, P s0 -> run verify schedule s0 = Running s -> P s.
Proof.
  intros Htick Hwork schedule.
  induction schedule as [|[key|tid] rest IH]; intros s0 s H0 Hrun; simpl in Hrun.
  - now injection Hrun as <-.
  - destruct (tick key s0) as [s1 out| |] eqn:Ht; try discriminate.
    eapply IH; [|exact Hrun]. eapply Htick; eauto.
  - eapply IH; [|exact Hrun]. now apply Hwork.
Qed.

Lemma gate_startup (config : list (string * option Image))
    (sources : list (VideoCapture Frame)) :
  gate (startup config sources).
Proof. left. split; reflexivity. Qed.

Lemma gate_tick key (s s' : System Frame Image) :
  gate s -> system_of (tick key s) = Some s' -> gate s'.
Proof.
  intros Hg. tick_cases s key; intros H; try discriminate; injection H as <-;
    try exact Hg; unfold gate, dispatch_due; simpl;
    destruct Hg as [[-> ->]|(t & -> & ->)]; simpl;
    try (destruct (counter (globals s) mod 30 =? 0)%Z; simpl);
    eauto.
Qed.

Lemma gate_work tid (s : System Frame Image) : gate s -> gate (work verify tid s).
Proof.
  intros Hg. unfold work.
  destruct (threads s !! tid) as [t|] eqn:Ht; [|exact Hg].
  destruct Hg as [[Hnil _]|(t0 & Hone & Hflag)].
  { rewrite Hnil in Ht. discriminate. }
  rewrite Hone in Ht |- *. destruct tid as [|tid]; [|discriminate].
  injection Ht as <-.
  pose proof (worker_step_globals (frames_copy t0) (pc t0) (globals s)) as H.
  simpl in H. destruct H as (_ & _ & _ & _ & H).
  destruct (worker_step verify (frames_copy t0) (pc t0) (globals s)) as [[w'|] g'];
    simpl in *.
  - right. eexists. split; [reflexivity | simpl; congruence].
  - left. split; [reflexivity | exact H].
Qed.

Lemma gate_reachable (config : list (string * option Image))
    (sources : list (VideoCapture Frame)) (schedule : list Event)
    (s : System Frame Image) :
  run verify schedule (startup config sources) = Running s -> gate s.
Proof.
  apply (run_invariant gate).
  - intros key s1 s2 out H Ht. apply (gate_tick key s1 s2 H). now rewrite Ht.
  - intros tid s1. apply gate_work.
  - apply gate_startup.
Qed.

(** What an iteration does to the threads and to the flag. *)
Lemma tick_threads key (s s' : System Frame Image) :
  system_of (tick key s) = Some s' ->
  (exists caps', capture (caps (globals s)) = inr ([], caps') /\
     threads s' = threads s /\
     is_processing (globals s') = is_processing (globals s)) \/
  (exists entry more caps',
     capture (caps (globals s)) = inr (entry :: more, caps') /\
     if dispatch_due (globals s)
     then threads s' = threads s ++
            [mkThread (entry :: more) (AtPerson (valid_people (globals s)))] /\
          is_processing (globals s') = true
     else threads s' = threads s /\
          is_processing (globals s') = is_processing (globals s)).
Proof.
  tick_cases s key; intros H; try discriminate; injection H as <-; simpl.
  1, 2: left; eexists; split; [reflexivity|split; reflexivity].
  all: right; exists entry, more, caps'; split; [reflexivity|];
    destruct (dispatch_due (globals s)); split; reflexivity.
Qed.

(** C4.  In every state the process reaches there is at most one worker
    thread, and there is one exactly when [is_processing] is set.  An
    iteration that finds the flag set starts no thread and leaves nothing
    behind for later; an iteration changes the threads only by starting the
    single thread of a new pass, which it does when the flag is clear, the
    counter is a multiple of 30 and a frame was captured. *)
Theorem at_most_one_pass_in_flight
    (config : list (string * option Image)) (sources : list (VideoCapture Frame))
    (schedule : list Event) (s : System Frame Image) :
  run verify schedule (startup config sources) = Running s ->
  (length (threads s) <= 1)%nat /\
  (is_processing (globals s) = true <-> threads s <> []) /\
  forall key s', system_of (tick key s) = Some s' ->
    (is_processing (globals s) = true ->
       threads s' = threads s /\ is_processing (globals s') = true) /\
    (threads s' <> threads s ->
       is_processing (globals s) = false /\ threads s = [] /\
       (counter (globals s) mod 30 = 0)%Z /\ length (threads s') = 1%nat) /\
    (is_processing (globals s) = false ->
     (counter (globals s) mod 30 = 0)%Z ->
     forall entry more caps',
       capture (caps (globals s)) = inr (entry :: more, caps') ->
       threads s' = [mkThread (entry :: more) (AtPerson (valid_people (globals s)))] /\
       is_processing (globals s') = true).
Proof.
  intros Hrun. pose proof (gate_reachable _ _ _ _ Hrun) as Hg.
  split; [|split].
  - destruct Hg as [[-> _]|(t & -> & _)]; simpl; lia.
  - destruct Hg as [[-> ->]|(t & -> & ->)]; split; congruence.
  - intros key s' Ht.
    destruct (tick_threads key s s' Ht)
      as [(caps' & Hcap & Hth & Hfl)|(entry & more & caps' & Hcap & Hd)].
    + split; [intros Hp; split; congruence|].
      split; [intros C; contradiction|].
      intros _ _ entry more caps'' Hcap'. congruence.
    + unfold dispatch_due in Hd.
      destruct (is_processing (globals s)) eqn:Hflag; simpl in Hd.
      * rewrite andb_false_r in Hd. destruct Hd as [Hth Hfl].
        split; [auto|]. split; [intros C; contradiction|]. intros; discriminate.
      * rewrite andb_true_r in Hd.
        assert (Hnil : threads s = []).
        { destruct Hg as [[H _]|(t & _ & H)]; [exact H | congruence]. }
        split; [intros; discriminate|].
        destruct (counter (globals s) mod 30 =? 0)%Z eqn:Hmod.
        -- destruct Hd as [Hth Hfl]. apply Z.eqb_eq in Hmod.
           rewrite Hnil in Hth. simpl in Hth. split.
           ++ intros _. rewrite Hth. auto.
           ++ intros _ _ entry' more' caps'' Hcap'.
              rewrite Hcap in Hcap'. injection Hcap' as <- <- <-. auto.
        -- destruct Hd as [Hth Hfl]. apply Z.eqb_neq in Hmod.
           split; [intros C; contradiction|]. intros _ C. contradiction.
Qed.

Lemma tick_people_status key (s s' : System Frame Image) :
  system_of (tick key s) = Some s' ->
  people_status (globals s') = people_status (globals s) /\
  valid_people (globals s') = valid_people (globals s).
Proof.
  tick_cases s key; intros H; try discriminate; injection H as <-; split; reflexivity.
Qed.

Lemma flying_step (ps0 : gmap string (Status Image)) (frames_dict : list (Z * Frame))
    (ev : Event) (s s' : System Frame Image) :
  flying verify ps0 frames_dict s ->
  run verify [ev] s = Running s' ->
  (length (threads s') <? length (threads s))%nat = false ->
  flying verify ps0 frames_dict s'.
Proof.
  intros (Hflag & w & Hth & Hin) Hrun Hlen. destruct ev as [key|tid]; simpl in Hrun.
  - destruct (tick key s) as [s1 out| |] eqn:Ht; try discriminate.
    injection Hrun as ->.
    assert (Hs : system_of (tick key s) = Some s') by now rewrite Ht.
    destruct (tick_people_status key s s' Hs) as [Hps _].
    destruct (tick_threads key s s' Hs)
      as [(caps' & _ & Hth' & Hfl)|(entry & more & caps' & _ & Hd)].
    + split; [congruence|]. exists w. split; [congruence|]. now rewrite Hps.
    + unfold dispatch_due in Hd. rewrite Hflag, andb_false_r in Hd.
      destruct Hd as [Hth' Hfl].
      split; [congruence|]. exists w. split; [congruence|]. now rewrite Hps.
  - injection Hrun as <-. unfold work in *. rewrite Hth in *.
    destruct tid as [|tid]; simpl in *.
    + pose proof (worker_step_globals frames_dict w (globals s)) as Hg.
      simpl in Hg. destruct Hg as (_ & _ & _ & _ & Hg).
      destruct (worker_step verify frames_dict w (globals s)) as [[w'|] g'] eqn:Hstep;
        simpl in *.
      * split; [simpl; congruence|]. exists w'. split; [reflexivity|].
        eapply worker_step_in_pass; eauto.
      * discriminate.
    + split; [exact Hflag|]. exists w. auto.
Qed.

Lemma flying_run (ps0 : gmap string (Status Image)) (frames_dict : list (Z * Frame))
    (schedule : list Event) (s s' : System Frame Image) :
  flying verify ps0 frames_dict s ->
  run_in_flight verify schedule s = Some s' ->
  flying verify ps0 frames_dict s'.
Proof.
  revert s. induction schedule as [|ev rest IH]; intros s Hf Hrun.
  - simpl in Hrun. now injection Hrun as <-.
  - cbn [run_in_flight] in Hrun.
    destruct (run verify [ev] s) as [s1|code] eqn:H1; [|discriminate].
    destruct (length (threads s1) <? length (threads s))%nat eqn:Hlen; [discriminate|].
    eapply IH; [|exact Hrun]. eapply flying_step; eauto.
Qed.

(** C3, as the code has it.  From the start of a pass and for as long as its
    thread lives, whatever the main loop does in between, the record of every
    person is the record the pass started from with the first [k] of the
    assignments of lines 115, 116 and 117 made, for some [k] from 0 to 3: the
    old record, the pass's record, or one of the two mixtures in between. *)
Theorem record_during_pass_is_partly_published
    (s0 : System Frame Image) (frames_dict : list (Z * Frame))
    (schedule : list Event) (s : System Frame Image) :
  threads s0 = [mkThread frames_dict (AtPerson (valid_people (globals s0)))] ->
  is_processing (globals s0) = true ->
  run_in_flight verify schedule s0 = Some s ->
  forall name r, people_status (globals s0) !! name = Some r ->
    exists k, (k <= 3)%nat /\
      people_status (globals s) !! name
      = Some (partly_published verify k frames_dict r).
Proof.
  intros Hth Hflag Hrun name r Hr.
  assert (Hf : flying verify (people_status (globals s0)) frames_dict s0).
  { split; [exact Hflag|]. eexists. split; [exact Hth|]. apply in_pass_start. }
  destruct (flying_run _ _ _ _ _ Hf Hrun) as (_ & w & _ & _ & Hrec).
  destruct (Hrec name r Hr) as (k & _ & Hk).
  exists (Nat.min k 3). split; [lia|]. rewrite Hk. f_equal.
  destruct k as [|[|[|[|k]]]]; reflexivity.
Qed.

Lemma display_registered (current_frames : list (Z * Frame)) (names : list string)
    (ps : gmap string (Status Image)) :
  (forall n, n ∈ names -> is_Some (ps !! n)) ->
  is_Some (display current_frames names ps).
Proof.
  induction names as [|name rest IH]; intros H; simpl; [eauto|].
  destruct (H name) as [r ->]; [now left|].
  destruct IH as [vs ->]; [|eauto].
  intros n Hn. apply H. now right.
Qed.

Lemma read_all_below i (cs : list (VideoCapture Frame)) k :
  (k < i)%Z -> frame_of (fst (read_all i cs)) k = None.
Proof.
  revert i. induction cs as [|cap rest IH]; intros i Hk; simpl; [reflexivity|].
  destruct (feed cap (cursor cap)); simpl.
  - destruct (Z.eqb_spec i k); [lia|]. apply IH. lia.
  - apply IH. lia.
Qed.

Lemma read_all_frame_of i (cs : list (VideoCapture Frame)) j cap :
  cs !! j = Some cap ->
  frame_of (fst (read_all i cs)) (i + Z.of_nat j) = feed cap (cursor cap).
Proof.
  revert i j. induction cs as [|c rest IH]; intros i j Hj; [discriminate|].
  destruct j as [|j]; simpl in Hj.
  - injection Hj as ->. simpl. rewrite Z.add_0_r.
    destruct (feed cap (cursor cap)); simpl.
    + now rewrite Z.eqb_refl.
    + apply read_all_below. lia.
  - simpl. replace (i + Z.of_nat (S j))%Z with ((i + 1) + Z.of_nat j)%Z by lia.
    destruct (feed c (cursor c)); simpl.
    + destruct (Z.eqb_spec i (i + 1 + Z.of_nat j)); [lia|]. now apply IH.
    + now apply IH.
Qed.


(** The dictionary an iteration captures is in ascending key order and its
    keys are not negative. *)
Lemma read_all_keys i (cs : list (VideoCapture Frame)) :
  ascending (fst (read_all i cs)) /\
  Forall (fun k => (i <= k)%Z) (keys (fst (read_all i cs))).
Proof.
  revert i. induction cs as [|c rest IH]; intros i; simpl.
  - split; constructor.
  - destruct (IH (i + 1)%Z) as [Hs Hf].
    assert (Hf' : Forall (fun k => (i <= k)%Z) (keys (fst (read_all (i + 1) rest)))).
    { eapply Forall_impl; [exact Hf|]. simpl. intros; lia. }
    destruct (feed c (cursor c)); simpl; [|auto].
    split.
    + constructor; [exact Hs|]. eapply Forall_impl; [exact Hf|]. simpl. intros; lia.
    + constructor; [lia | exact Hf'].
Qed.

Lemma capture_keys (cs caps' : list (VideoCapture Frame)) (frames_dict : list (Z * Frame)) :
  capture cs = inr (frames_dict, caps') ->
  ascending frames_dict /\ Forall (fun k => (0 <= k)%Z) (keys frames_dict).
Proof.
  destruct cs as [|cap0 rest]; [discriminate|]. unfold capture.
  pose proof (read_all_keys 0 (snd (read cap0) :: rest)) as Hk. revert Hk.
  generalize (read_all 0 (snd (read cap0) :: rest)).
  intros p Hk H. injection H as ->. exact Hk.
Qed.

(** Every pass the main loop starts works on a dictionary in ascending key
    order with keys from 0 on, and finds every person registered. *)
Lemma registered_reachable (config : list (string * option Image))
    (sources : list (VideoCapture Frame)) (schedule : list Event)
    (s : System Frame Image) :
  run verify schedule (startup config sources) = Running s -> registered (globals s).
Proof.
  apply (run_invariant (fun s => registered (globals s))).
  - intros key s1 s2 out H Ht.
    assert (Hs : system_of (tick key s1) = Some s2) by now rewrite Ht.
    destruct (tick_people_status key s1 s2 Hs) as [Hps Hvp].
    intros n Hn. rewrite Hps. apply H. now rewrite <- Hvp.
  - intros tid s1 H. unfold work.
    destruct (threads s1 !! tid) as [t|]; [|exact H].
    pose proof (worker_step_globals (frames_copy t) (pc t) (globals s1)) as Hg.
    simpl in Hg. destruct Hg as (Hvp & _ & _ & Hsome & _).
    destruct (worker_step verify (frames_copy t) (pc t) (globals s1)) as [[w'|] g'];
      simpl in *; intros n Hn; apply Hsome, H; congruence.
  - apply registered_startup.
Qed.

Lemma started_pass_dictionary key (s s' : System Frame Image) (t : Thread Frame) :
  system_of (tick key s) = Some s' ->
  threads s' = threads s ++ [t] ->
  ascending (frames_copy t) /\ Forall (fun k => (0 <= k)%Z) (keys (frames_copy t)) /\
  pc t = AtPerson (valid_people (globals s)).
Proof.
  intros Ht Hth.
  destruct (tick_threads key s s' Ht)
    as [(caps' & _ & Hth' & _)|(entry & more & caps' & Hcap & Hd)].
  - rewrite Hth' in Hth. apply (f_equal length) in Hth.
    rewrite length_app in Hth. simpl in Hth. lia.
  - destruct (dispatch_due (globals s)); destruct Hd as [Hth' _].
    + rewrite Hth' in Hth. apply app_inv_head in Hth. injection Hth as <-.
      destruct (capture_keys _ _ _ Hcap). auto.
    + rewrite Hth' in Hth. apply (f_equal length) in Hth.
      rewrite length_app in Hth. simpl in Hth. lia.
Qed.


End Scheduler.

(** ** Loading the reference pictures *)

Section Loading.

Context {Frame Image : Type}.

Lemma load_reference_images_snoc (l : list (string * option Image))
    (e : string * option Image) :
  @load_reference_images Image (l ++ [e])
  = match snd e with
    | Some img =>
        (<[fst e := initial_status img]> (fst (load_reference_images l)),
         snd (load_reference_images l) ++ [fst e])
    | None => load_reference_images l
    end.
Proof. unfold load_reference_images. now rewrite fold_left_app. Qed.

Lemma loaded_names_snoc (l : list (string * option Image)) (e : string * option Image) :
  loaded_names (l ++ [e])
  = loaded_names l ++ match snd e with Some _ => [fst e] | None => [] end.
Proof.
  unfold loaded_names. rewrite List.filter_app, map_app. simpl.
  now destruct (snd e).
Qed.

Lemma loaded_names_configured (l : list (string * option Image)) (name : string) :
  name ∈ loaded_names l -> name ∈ map fst l.
Proof.
  unfold loaded_names. intros H. apply list_elem_of_In in H. apply list_elem_of_In.
  apply in_map_iff in H as (e & <- & He). apply filter_In in He as [He _].
  now apply in_map.
Qed.

Lemma load_valid_people (config : list (string * option Image)) :
  snd (load_reference_images config) = loaded_names config.
Proof.
  induction config as [|[n o] l IH] using rev_ind; [reflexivity|].
  rewrite load_reference_images_snoc, loaded_names_snoc. simpl.
  destruct o as [img|]; simpl; [now rewrite IH | now rewrite app_nil_r].
Qed.

(** X1.  Lines 40 to 52 with distinct configured names: [valid_people] lists
    the names whose picture loaded, in configuration order and without
    repetition; [people_status] has a record exactly for these names, and it
    is the initial record (-1, 10.0, False) with the loaded picture. *)
Theorem loading_registers_loaded_pictures (config : list (string * option Image)) :
  NoDup (map fst config) ->
  snd (load_reference_images config) = loaded_names config /\
  NoDup (snd (load_reference_images config)) /\
  (forall name,
     name ∈ snd (load_reference_images config) <->
     is_Some (fst (load_reference_images config) !! name)) /\
  (forall name st,
     fst (load_reference_images config) !! name = Some st <->
     exists img, (name, Some img) ∈ config /\ st = initial_status img).
Proof.
  induction config as [|[n o] l IH] using rev_ind; intros Hnd.
  - unfold load_reference_images. simpl.
    split; [reflexivity|]. split; [constructor|]. split.
    + intros name. split; [intros H; inversion H|].
      intros [x Hx]. rewrite lookup_empty in Hx. discriminate.
    + intros name st. split.
      * intros H. rewrite lookup_empty in H. discriminate.
      * intros (img & H & _). inversion H.
  - rewrite map_app in Hnd. simpl in Hnd.
    apply NoDup_app in Hnd as (Hnd & Hfresh & _).
    destruct (IH Hnd) as (Hvp & Hnd' & Hdom & Hrec).
    assert (Hn : n ∉ map fst l).
    { intros C. apply (Hfresh n C). now left. }
    rewrite load_reference_images_snoc, loaded_names_snoc. simpl.
    destruct o as [img|]; simpl.
    + split; [now rewrite Hvp|]. split; [|split].
      * apply NoDup_app. split; [exact Hnd'|]. split; [|apply NoDup_singleton].
        intros x Hx Hx'. apply list_elem_of_singleton in Hx' as ->.
        rewrite Hvp in Hx. now apply Hn, loaded_names_configured.
      * intros name. rewrite elem_of_app, list_elem_of_singleton, Hdom.
        destruct (decide (name = n)) as [->|Hne].
        -- rewrite lookup_insert_eq. split; eauto.
        -- rewrite lookup_insert_ne by congruence. split; [intros [H|H]|]; tauto.
      * intros name st. destruct (decide (name = n)) as [->|Hne].
        -- rewrite lookup_insert_eq. split.
           ++ intros H. injection H as <-. exists img. split; [|reflexivity].
              apply elem_of_app. right. now left.
           ++ intros (img' & Hin & ->). apply elem_of_app in Hin as [Hin|Hin].
              ** exfalso. apply Hn. apply list_elem_of_In.
                 apply list_elem_of_In in Hin. now apply (in_map fst) in Hin.
              ** apply list_elem_of_singleton in Hin. now injection Hin as <-.
        -- rewrite lookup_insert_ne by congruence. rewrite Hrec.
           split; intros (img' & Hin & ->); exists img'; (split; [|reflexivity]).
           ++ apply elem_of_app. now left.
           ++ apply elem_of_app in Hin as [Hin|Hin]; [exact Hin|].
              apply list_elem_of_singleton in Hin. congruence.
    + rewrite app_nil_r. split; [exact Hvp|]. split; [exact Hnd'|].
      split; [exact Hdom|]. intros name st. rewrite Hrec.
      split; intros (img' & Hin & ->); exists img'; (split; [|reflexivity]).
      * apply elem_of_app. now left.
      * apply elem_of_app in Hin as [Hin|Hin]; [exact Hin|].
        apply list_elem_of_singleton in Hin. discriminate.
Qed.

End Loading.


(** ** What a pass can publish *)

Section Outcome.

Context {Frame Image : Type}.
Variable verify : Frame -> Image -> VerifyResult.

Local Open Scope float_scope.

Lemma ltb_leb_trans x y z : (x <? y) = true -> (y <=? z) = true -> (x <? z) = true.
Proof.
  intros Hxy Hyz.
  pose proof (leb_trans _ _ _ (ltb_leb _ _ Hxy) Hyz) as Hxz.
  apply leb_compare in Hxz. destruct Hxz as [Hlt|Heq].
  - now apply ltb_compare.
  - apply eqb_compare, eqb_sym, eqb_leb in Heq.
    pose proof (leb_trans _ _ _ Hyz Heq) as Hyx.
    rewrite (ltb_not_leb _ _ Hxy) in Hyx. discriminate.
Qed.

(** The accumulators after the camera loop, in whatever order the
    dictionary is. *)
Lemma check_every_camera_sound (ref : Image) (frames_dict : list (Z * Frame)) :
  let b := check_every_camera verify ref frames_dict in
  (current_best_dist b <=? 10) = true /\
  ((current_best_cam b = (-1)%Z /\ current_best_dist b = 10) \/
   (found_match b = true /\ (current_best_dist b <? 10) = true /\
    verified_at verify ref frames_dict (current_best_cam b) (current_best_dist b))).
Proof.
  induction frames_dict as [|e l IH] using rev_ind; simpl.
  - split; [reflexivity|]. left. split; reflexivity.
  - simpl in IH. rewrite check_every_camera_snoc. unfold check_camera.
    set (b := check_every_camera verify ref l) in *.
    destruct IH as [Hle IH].
    assert (Hkeep : (current_best_cam b = (-1)%Z /\ current_best_dist b = 10) \/
              (found_match b = true /\ (current_best_dist b <? 10) = true /\
               verified_at verify ref (l ++ [e]) (current_best_cam b)
                 (current_best_dist b))).
    { destruct IH as [H|(Hf & Hlt & Hv)]; [now left|]. right.
      split; [exact Hf|]. split; [exact Hlt|]. apply verified_at_snoc. now left. }
    destruct (verify (snd e) ref) as [[|] d|] eqn:Hv; try (split; assumption).
    destruct (d <? current_best_dist b) eqn:Hd; simpl.
    + assert (H10 : (d <? 10) = true) by (eapply ltb_leb_trans; eauto).
      split; [now apply ltb_leb|]. right. split; [reflexivity|]. split; [exact H10|].
      apply verified_at_snoc. right. auto.
    + split; [exact Hle|].
      destruct Hkeep as [H|(_ & Hlt & Hv')]; [now left|]. right. auto.
Qed.

(** X2.  Whatever the order of the dictionary and whatever the oracle
    answers, a pass publishes for every person a distance of at most 10.0,
    and either the untouched pair (-1, 10.0) or, with the match flag set, a
    camera of the dictionary together with the distance the oracle reported
    for it, which is below 10.0. *)
Theorem published_pair_is_consistent
    (frames_dict : list (Z * Frame)) (g : Globals Frame Image)
    (name : string) (r : Status Image) :
  registered g ->
  name ∈ valid_people g ->
  people_status g !! name = Some r ->
  exists r',
    people_status (fst (process_multi_camera verify frames_dict g)) !! name = Some r' /\
    ref_img r' = ref_img r /\
    (distance r' <=? 10) = true /\
    ((best_cam_index r' = (-1)%Z /\ distance r' = 10) \/
     (is_match r' = true /\ (distance r' <? 10) = true /\
      verified_at verify (ref_img r) frames_dict (best_cam_index r') (distance r'))).
Proof.
  intros Hreg Hin Hr. exists (published verify frames_dict r).
  split; [now apply pass_publishes|]. split; [reflexivity|].
  apply (check_every_camera_sound (ref_img r) frames_dict).
Qed.

Lemma check_every_camera_only_verified (ref : Image) (frames_dict : list (Z * Frame)) :
  check_every_camera verify ref (only_verified verify ref frames_dict)
  = check_every_camera verify ref frames_dict.
Proof.
  unfold check_every_camera, only_verified. generalize initial_best.
  induction frames_dict as [|e l IH]; intros b; simpl; [reflexivity|].
  destruct (verify (snd e) ref) as [[|] d|] eqn:Hv; simpl.
  - rewrite IH. unfold check_camera at 2 4. now rewrite Hv.
  - rewrite IH. unfold check_camera at 3. now rewrite Hv.
  - rewrite IH. unfold check_camera at 3. now rewrite Hv.
Qed.

(** X3.  Only verified answers count: a camera whose answer is not verified
    changes nothing, however small its distance.  The record published for a
    person is the one the pass would publish from the verified entries of
    the dictionary alone. *)
Theorem unverified_answers_are_ignored
    (frames_dict : list (Z * Frame)) (g : Globals Frame Image)
    (name : string) (r : Status Image) :
  registered g ->
  name ∈ valid_people g ->
  people_status g !! name = Some r ->
  (forall b e d, verify (snd e) (ref_img r) = Result false d ->
     check_camera verify (ref_img r) b e = b) /\
  people_status (fst (process_multi_camera verify frames_dict g)) !! name
  = Some (published verify (only_verified verify (ref_img r) frames_dict) r).
Proof.
  intros Hreg Hin Hr. split.
  - intros b e d Hv. unfold check_camera. now rewrite Hv.
  - rewrite (pass_publishes verify frames_dict g name r Hreg Hin Hr).
    unfold published. now rewrite check_every_camera_only_verified.
Qed.

(** X4.  People are resolved independently: the record published for a
    person depends on the dictionary, on that person's reference picture
    and on the oracle's answers for that picture only.  Other people, their
    pictures, their earlier records and the answers about them do not
    enter. *)
Theorem people_are_resolved_independently
    (verify' : Frame -> Image -> VerifyResult)
    (frames_dict : list (Z * Frame)) (g g' : Globals Frame Image)
    (name : string) (r r' : Status Image) :
  registered g ->
  registered g' ->
  name ∈ valid_people g ->
  name ∈ valid_people g' ->
  people_status g !! name = Some r ->
  people_status g' !! name = Some r' ->
  ref_img r = ref_img r' ->
  (forall c f, (c, f) ∈ frames_dict -> verify f (ref_img r) = verify' f (ref_img r)) ->
  people_status (fst (process_multi_camera verify frames_dict g)) !! name
  = people_status (fst (process_multi_camera verify' frames_dict g')) !! name.
Proof.
  intros Hreg Hreg' Hin Hin' Hr Hr' Href Hsame.
  rewrite (pass_publishes verify frames_dict g name r Hreg Hin Hr).
  rewrite (pass_publishes verify' frames_dict g' name r' Hreg' Hin' Hr').
  unfold published. rewrite <- Href.
  now rewrite (check_every_camera_ext verify verify' (ref_img r) frames_dict Hsame).
Qed.

Lemma verified_entry_snoc (ref : Image) (l : list (Z * Frame)) (e : Z * Frame)
    (i : nat) (c : Z) (d : float) :
  verified_entry verify ref (l ++ [e]) i c d <->
  ((i < length l)%nat /\ verified_entry verify ref l i c d) \/
  (i = length l /\ c = fst e /\ verify (snd e) ref = Result true d).
Proof.
  unfold verified_entry. split.
  - intros (f & Hl & Hv). apply lookup_snoc_Some in Hl as [[Hi Hl]|[-> He]].
    + left. eauto.
    + right. subst e. auto.
  - intros [(Hi & f & Hl & Hv)|(-> & -> & Hv)].
    + exists f. split; [|exact Hv]. apply lookup_snoc_Some. auto.
    + exists (snd e). split; [|exact Hv]. apply lookup_snoc_Some. right.
      split; [reflexivity|]. now destruct e.
Qed.

(** The accumulators after the camera loop over a dictionary in any order:
    untouched, or the first entry with the least verified distance. *)
Lemma check_every_camera_first (ref : Image) (frames_dict : list (Z * Frame)) :
  let b := check_every_camera verify ref frames_dict in
  (current_best_cam b = (-1)%Z /\ current_best_dist b = 10 /\
   forall j c d, verified_entry verify ref frames_dict j c d -> (d <? 10) = false) \/
  ((current_best_dist b <? 10) = true /\
   exists i,
     verified_entry verify ref frames_dict i (current_best_cam b) (current_best_dist b) /\
     forall j c d, verified_entry verify ref frames_dict j c d ->
       (d <? current_best_dist b) = false /\
       ((d =? current_best_dist b) = true -> (i <= j)%nat)).
Proof.
  induction frames_dict as [|e l IH] using rev_ind; simpl.
  - left. repeat split. intros j c d (f & H & _). discriminate.
  - simpl in IH. rewrite check_every_camera_snoc. unfold check_camera.
    set (b := check_every_camera verify ref l) in *.
    destruct (verify (snd e) ref) as [[|] d|] eqn:Hv.
    + destruct (d <? current_best_dist b) eqn:Hd.
      * right.
        assert (Hbelow : forall j c' d', verified_entry verify ref l j c' d' ->
                  (d' <? current_best_dist b) = false).
        { intros j c' d' H'. destruct IH as [(_ & -> & H)|(_ & i & _ & H)]; [eauto|].
          apply (H j c' d' H'). }
        assert (H10 : (d <? 10) = true).
        { destruct IH as [(_ & E & _)|(Hb & _)]; [now rewrite <- E|].
          eapply ltb_trans; eauto. }
        split; [exact H10|]. simpl. exists (length l). split.
        { apply verified_entry_snoc. right. auto. }
        intros j c' d' H'. apply verified_entry_snoc in H' as [[Hj H']|(-> & -> & H')].
        -- split.
           ++ destruct (d' <? d) eqn:E; [|reflexivity].
              rewrite <- (Hbelow j c' d' H'). symmetry. eapply ltb_trans; eauto.
           ++ intros E. exfalso. apply eqb_leb in E.
              pose proof (leb_ltb_trans _ _ _ E Hd) as C.
              rewrite (Hbelow j c' d' H') in C. discriminate.
        -- rewrite Hv in H'. injection H' as <-. split; [apply ltb_irrefl | lia].
      * destruct IH as [(Hc & Hd10 & H)|(Hb & i & Hin & H)].
        -- left. repeat split; simpl; auto.
           intros j c' d' H'.
           apply verified_entry_snoc in H' as [[_ H']|(_ & _ & H')]; [eauto|].
           rewrite Hv in H'. injection H' as <-. now rewrite <- Hd10.
        -- right. split; [exact Hb|]. simpl. exists i. split.
           { apply verified_entry_snoc. left. split; [|exact Hin].
             destruct Hin as (f & Hl & _). now apply lookup_lt_Some in Hl. }
           intros j c' d' H'.
           apply verified_entry_snoc in H' as [[_ H']|(-> & -> & H')]; [eauto|].
           rewrite Hv in H'. injection H' as <-. split; [exact Hd|].
           intros _. destruct Hin as (f & Hl & _). apply lookup_lt_Some in Hl. lia.
    + destruct IH as [(Hc & Hd10 & H)|(Hb & i & Hin & H)].
      * left. repeat split; auto. intros j c' d' H'.
        apply verified_entry_snoc in H' as [[_ H']|(_ & _ & H')]; [eauto | congruence].
      * right. split; [exact Hb|]. exists i. split.
        { apply verified_entry_snoc. left. split; [|exact Hin].
          destruct Hin as (f & Hl & _). now apply lookup_lt_Some in Hl. }
        intros j c' d' H'.
        apply verified_entry_snoc in H' as [[_ H']|(_ & _ & H')]; [eauto | congruence].
    + destruct IH as [(Hc & Hd10 & H)|(Hb & i & Hin & H)].
      * left. repeat split; auto. intros j c' d' H'.
        apply verified_entry_snoc in H' as [[_ H']|(_ & _ & H')]; [eauto | congruence].
      * right. split; [exact Hb|]. exists i. split.
        { apply verified_entry_snoc. left. split; [|exact Hin].
          destruct Hin as (f & Hl & _). now apply lookup_lt_Some in Hl. }
        intros j c' d' H'.
        apply verified_entry_snoc in H' as [[_ H']|(_ & _ & H')]; [eauto | congruence].
Qed.

(** X13.  The worker does not need the dictionary to be sorted.  For a
    dictionary in any order in which some entry is verified below 10.0, the
    published distance is the least verified distance, and among the entries
    reporting it the published camera is the one that comes first in the
    dictionary's iteration order: ties go to the entry visited first, not to
    the smaller index. *)
Theorem ties_go_to_the_first_entry_visited
    (frames_dict : list (Z * Frame)) (g : Globals Frame Image)
    (name : string) (r : Status Image) (j0 : nat) (c0 : Z) (d0 : float) :
  registered g ->
  name ∈ valid_people g ->
  people_status g !! name = Some r ->
  verified_entry verify (ref_img r) frames_dict j0 c0 d0 ->
  (d0 <? 10) = true ->
  exists r' i,
    people_status (fst (process_multi_camera verify frames_dict g)) !! name = Some r' /\
    is_match r' = true /\
    verified_entry verify (ref_img r) frames_dict i (best_cam_index r') (distance r') /\
    forall j c d, verified_entry verify (ref_img r) frames_dict j c d ->
      (d <? distance r') = false /\
      ((d =? distance r') = true -> (i <= j)%nat).
Proof.
  intros Hreg Hin Hr Hv0 Hd0.
  destruct (check_every_camera_first (ref_img r) frames_dict)
    as [(_ & _ & H)|(_ & i & Hbest & H)].
  { rewrite (H j0 c0 d0 Hv0) in Hd0. discriminate. }
  exists (published verify frames_dict r), i.
  split; [now apply pass_publishes|]. unfold published. simpl.
  split; [|split; [exact Hbest | exact H]].
  apply check_every_camera_found. destruct Hv0 as (f & Hl & Hv).
  exists c0, d0, f. split; [|exact Hv]. now apply list_elem_of_lookup_2 in Hl.
Qed.


End Outcome.


(** ** The life of a pass *)

Section Lifetime.

Context {Frame Image : Type}.
Variable verify : Frame -> Image -> VerifyResult.

Lemma worker_step_decreases (frames_dict : list (Z * Frame)) (w w' : Worker)
    (g g' : Globals Frame Image) :
  worker_step verify frames_dict w g = (Some w', g') ->
  (steps_left w' < steps_left w)%nat.
Proof.
  destruct w as [[|n rest]|n b rest|n b rest|n b rest|o]; simpl;
    try (destruct (people_status g !! n)); intros H; try discriminate;
    injection H as <- _; simpl; lia.
Qed.

Lemma worker_ends (frames_dict : list (Z * Frame)) (k : nat) :
  forall (w : Worker) (g : Globals Frame Image),
    (steps_left w <= k)%nat ->
    exists n g', (n <= steps_left w)%nat /\
      worker_steps verify n frames_dict w g = (None, g') /\
      is_processing g' = false.
Proof.
  induction k as [|k IH]; intros w g Hk.
  - destruct w as [l|? ? l|? ? l|? ? l|?]; simpl in Hk; lia.
  - pose proof (worker_step_globals verify frames_dict w g) as Hg. simpl in Hg.
    destruct Hg as (_ & _ & _ & _ & Hflag).
    destruct (worker_step verify frames_dict w g) as [[w'|] g1] eqn:Hstep; simpl in Hflag.
    + pose proof (worker_step_decreases _ _ _ _ _ Hstep) as Hlt.
      destruct (IH w' g1) as (n & g' & Hn & Hrun & Hf); [lia|].
      exists (S n), g'. split; [lia|]. simpl. rewrite Hstep. auto.
    + exists 1%nat, g1. split.
      * destruct w as [l|? ? l|? ? l|? ? l|?]; simpl; lia.
      * simpl. rewrite Hstep. auto.
Qed.

Lemma lone_worker_ends (frames_dict : list (Z * Frame)) (k : nat) :
  forall (w : Worker) (g : Globals Frame Image),
    (steps_left w <= k)%nat ->
    exists n s', (n <= steps_left w)%nat /\
      run verify (replicate n (Work 0)) (mkSystem g [mkThread frames_dict w])
      = Running s' /\
      threads s' = [] /\ is_processing (globals s') = false /\
      valid_people (globals s') = valid_people g /\ caps (globals s') = caps g /\
      counter (globals s') = counter g.
Proof.
  induction k as [|k IH]; intros w g Hk.
  - destruct w as [l|? ? l|? ? l|? ? l|?]; simpl in Hk; lia.
  - pose proof (worker_step_globals verify frames_dict w g) as Hg. simpl in Hg.
    destruct Hg as (Hvp & Hcaps & Hcnt & _ & Hflag).
    destruct (worker_step verify frames_dict w g) as [[w'|] g1] eqn:Hstep;
      simpl in Hflag, Hvp, Hcaps, Hcnt.
    + pose proof (worker_step_decreases _ _ _ _ _ Hstep) as Hlt.
      destruct (IH w' g1) as (n & s' & Hn & Hrun & Hth & Hf & H1 & H2 & H3); [lia|].
      exists (S n), s'. split; [lia|]. simpl. unfold work. simpl. rewrite Hstep. simpl.
      repeat split; try assumption; congruence.
    + exists 1%nat, (mkSystem g1 []). split.
      * destruct w as [l|? ? l|? ? l|? ? l|?]; simpl; lia.
      * simpl. unfold work. simpl. rewrite Hstep. simpl. repeat split; assumption.
Qed.

(** X5.  A pass always comes to an end and reopens the gate.  In every state
    the process reaches, letting the worker thread run on its own for at most
    [steps_left] steps (four per pending person and a few more) leaves no
    thread and [is_processing] cleared, whether the pass completes or stops
    in the outer [except]; [valid_people], [caps] and [counter] are as
    before. *)
Theorem pass_ends_and_clears_flag
    (config : list (string * option Image)) (sources : list (VideoCapture Frame))
    (schedule : list Event) (s : System Frame Image) :
  run verify schedule (startup config sources) = Running s ->
  exists n s',
    (n <= match threads s with t :: _ => steps_left (pc t) | [] => 0 end)%nat /\
    run verify (replicate n (Work 0)) s = Running s' /\
    threads s' = [] /\ is_processing (globals s') = false /\
    valid_people (globals s') = valid_people (globals s) /\
    caps (globals s') = caps (globals s) /\
    counter (globals s') = counter (globals s).
Proof.
  intros Hrun. destruct (gate_reachable verify _ _ _ _ Hrun) as [[Hnil Hf]|(t & Hone & _)].
  - exists 0%nat, s. rewrite Hnil. simpl. repeat split; auto.
  - rewrite Hone. destruct s as [g th]. simpl in *. subst th. destruct t as [fr w].
    apply (lone_worker_ends fr (steps_left w) w g). lia.
Qed.

Lemma worker_step_records (frames_dict : list (Z * Frame)) (w : Worker)
    (g1 g2 : Globals Frame Image) :
  people_status g1 = people_status g2 ->
  fst (worker_step verify frames_dict w g1) = fst (worker_step verify frames_dict w g2) /\
  people_status (snd (worker_step verify frames_dict w g1))
  = people_status (snd (worker_step verify frames_dict w g2)).
Proof.
  intros H. destruct w as [[|n rest]|n b rest|n b rest|n b rest|o]; simpl;
    rewrite ?H; try (destruct (people_status g2 !! n)); simpl; auto.
Qed.

Lemma worker_steps_records (frames_dict : list (Z * Frame)) (n : nat) :
  forall (w : Worker) (g1 g2 : Globals Frame Image),
    people_status g1 = people_status g2 ->
    fst (worker_steps verify n frames_dict w g1)
    = fst (worker_steps verify n frames_dict w g2) /\
    people_status (snd (worker_steps verify n frames_dict w g1))
    = people_status (snd (worker_steps verify n frames_dict w g2)).
Proof.
  induction n as [|n IH]; intros w g1 g2 H; simpl; [auto|].
  destruct (worker_step_records frames_dict w g1 g2 H) as [Hw Hps].
  destruct (worker_step verify frames_dict w g1) as [[w1|] h1],
           (worker_step verify frames_dict w g2) as [[w2|] h2];
    simpl in Hw, Hps; try discriminate.
  - injection Hw as <-. now apply IH.
  - auto.
Qed.

Lemma heading_for_step (final : gmap string (Status Image))
    (frames_dict : list (Z * Frame)) (ev : Event) (s s' : System Frame Image) :
  heading_for verify final frames_dict s ->
  run verify [ev] s = Running s' ->
  (length (threads s') <? length (threads s))%nat = false ->
  heading_for verify final frames_dict s'.
Proof.
  intros (Hflag & w & n & g' & Hth & Hsteps & Hfin) Hrun Hlen.
  destruct ev as [key|tid]; simpl in Hrun.
  - destruct (tick key s) as [s1 out| |] eqn:Ht; try discriminate.
    injection Hrun as ->.
    assert (Hs : system_of (tick key s) = Some s') by now rewrite Ht.
    destruct (tick_people_status key s s' Hs) as [Hps _].
    destruct (worker_steps_records frames_dict n w (globals s') (globals s) Hps)
      as [Hfst Hsnd].
    rewrite Hsteps in Hfst, Hsnd. simpl in Hfst, Hsnd.
    assert (Hkeep : threads s' = threads s /\
                    is_processing (globals s') = is_processing (globals s)).
    { destruct (tick_threads key s s' Hs)
        as [(caps' & _ & Hth' & Hfl)|(entry & more & caps' & _ & Hd)]; [auto|].
      unfold dispatch_due in Hd. rewrite Hflag, andb_false_r in Hd.
      destruct Hd as [Hd1 Hd2]. split; congruence. }
    destruct Hkeep as [Hth' Hfl]. split; [congruence|].
    exists w, n, (snd (worker_steps verify n frames_dict w (globals s'))).
    split; [congruence|]. split; [|congruence].
    destruct (worker_steps verify n frames_dict w (globals s')) as [o h].
    simpl in *. now subst o.
  - injection Hrun as <-. unfold work in *. rewrite Hth in *.
    destruct tid as [|tid]; simpl in *.
    + pose proof (worker_step_globals verify frames_dict w (globals s)) as Hg.
      simpl in Hg. destruct Hg as (_ & _ & _ & _ & Hg).
      destruct n as [|n]; [discriminate|]. simpl in Hsteps.
      destruct (worker_step verify frames_dict w (globals s)) as [[w'|] g1] eqn:Hstep;
        simpl in *.
      * split; [simpl; congruence|]. exists w', n, g'. auto.
      * discriminate.
    + split; [exact Hflag|]. exists w, n, g'. auto.
Qed.

Lemma heading_for_run (final : gmap string (Status Image))
    (frames_dict : list (Z * Frame)) (schedule : list Event)
    (s s' : System Frame Image) :
  heading_for verify final frames_dict s ->
  run_in_flight verify schedule s = Some s' ->
  heading_for verify final frames_dict s'.
Proof.
  revert s. induction schedule as [|ev rest IH]; intros s Hf Hrun.
  - simpl in Hrun. now injection Hrun as <-.
  - cbn [run_in_flight] in Hrun.
    destruct (run verify [ev] s) as [s1|code] eqn:H1; [|discriminate].
    destruct (length (threads s1) <? length (threads s))%nat eqn:Hlen; [discriminate|].
    eapply IH; [|exact Hrun]. eapply heading_for_step; eauto.
Qed.

(** X6.  The main loop does not disturb a pass.  However its iterations are
    interleaved with the steps of the worker, when the thread ends the
    records are exactly those [process_multi_camera] computes in one piece
    from the state in which the pass started, and the flag is cleared. *)
Theorem interleaved_pass_publishes_the_same
    (s0 : System Frame Image) (frames_dict : list (Z * Frame))
    (schedule : list Event) (s : System Frame Image) :
  threads s0 = [mkThread frames_dict (AtPerson (valid_people (globals s0)))] ->
  is_processing (globals s0) = true ->
  run_in_flight verify schedule s0 = Some s ->
  threads (work verify 0 s) = [] ->
  people_status (globals (work verify 0 s))
  = people_status (fst (process_multi_camera verify frames_dict (globals s0))) /\
  is_processing (globals (work verify 0 s)) = false.
Proof.
  intros Hth Hflag Hrun Hend.
  assert (H0 : heading_for verify
                 (people_status (fst (process_multi_camera verify frames_dict (globals s0))))
                 frames_dict s0).
  { split; [exact Hflag|].
    destruct (worker_steps_process_multi_camera verify frames_dict (globals s0))
      as [n Hn].
    exists (AtPerson (valid_people (globals s0))), n,
      (fst (process_multi_camera verify frames_dict (globals s0))). auto. }
  destruct (heading_for_run _ _ _ _ _ H0 Hrun)
    as (_ & w & n & g' & Hth' & Hsteps & Hfin).
  unfold work in *. rewrite Hth' in *. simpl in *.
  pose proof (worker_step_globals verify frames_dict w (globals s)) as Hg.
  simpl in Hg. destruct Hg as (_ & _ & _ & _ & Hg).
  destruct n as [|n]; [discriminate|]. simpl in Hsteps.
  destruct (worker_step verify frames_dict w (globals s)) as [[w'|] g1] eqn:Hstep;
    simpl in *; [discriminate|].
  injection Hsteps as ->. auto.
Qed.

End Lifetime.


(** ** The main loop over a whole run *)

Section MainLoop.

Context {Frame Image : Type}.
Variable verify : Frame -> Image -> VerifyResult.

Lemma read_all_caps_map i (cs : list (VideoCapture Frame)) :
  snd (read_all i cs) = map (fun cap => mkCap (feed cap) (S (cursor cap))) cs.
Proof.
  revert i. induction cs as [|cap rest IH]; intros i; simpl; [reflexivity|].
  now rewrite IH.
Qed.

Lemma capture_advance (cs caps' : list (VideoCapture Frame))
    (frames_dict : list (Z * Frame)) :
  capture cs = inr (frames_dict, caps') -> caps' = advance 1 cs.
Proof.
  destruct cs as [|cap0 rest]; [discriminate|]. unfold capture.
  pose proof (read_all_caps_map 0 (snd (read cap0) :: rest)) as H. revert H.
  generalize (read_all 0 (snd (read cap0) :: rest)). intros p H E.
  injection E as ->. simpl in H. rewrite H. simpl. f_equal.
  - f_equal. lia.
  - apply map_ext. intros cap. f_equal. lia.
Qed.

Lemma advance_0 (cs : list (VideoCapture Frame)) : advance 0 cs = cs.
Proof.
  destruct cs as [|[f0 c0] rest]; simpl; [reflexivity|]. f_equal.
  - f_equal. lia.
  - rewrite <- (map_id rest) at 2. apply map_ext. intros [f c]. simpl. f_equal. lia.
Qed.

Lemma advance_S (n : nat) (cs : list (VideoCapture Frame)) :
  advance n (advance 1 cs) = advance (S n) cs.
Proof.
  destruct cs as [|cap0 rest]; simpl; [reflexivity|]. f_equal.
  - f_equal. lia.
  - rewrite map_map. apply map_ext. intros cap. simpl. f_equal. lia.
Qed.

(** The cases of one iteration that does not raise. *)
Lemma tick_effect key (s s' : System Frame Image) :
  system_of (tick key s) = Some s' ->
  exists current_frames caps',
    capture (caps (globals s)) = inr (current_frames, caps') /\
    people_status (globals s') = people_status (globals s) /\
    valid_people (globals s') = valid_people (globals s) /\
    caps (globals s') = caps' /\
    ((current_frames = [] /\ threads s' = threads s /\
      is_processing (globals s') = is_processing (globals s) /\
      counter (globals s') = counter (globals s) /\
      shown_of (tick key s) = Some WaitingForCameras) \/
     (current_frames <> [] /\
      counter (globals s') = (counter (globals s) + 1)%Z /\
      shown_of (tick key s)
      = Windows <$> display current_frames (valid_people (globals s))
                      (people_status (globals s)) /\
      if dispatch_due (globals s)
      then threads s' = threads s ++
             [mkThread current_frames (AtPerson (valid_people (globals s)))] /\
           is_processing (globals s') = true
      else threads s' = threads s /\
           is_processing (globals s') = is_processing (globals s))).
Proof.
  unfold tick.
  destruct (capture (caps (globals s))) as [e|[[|entry more] caps']] eqn:Hcap;
    [discriminate| |].
  - intros H. exists [], caps'. split; [reflexivity|].
    destruct key; simpl in H; injection H as <-; simpl;
      (split; [reflexivity|split; [reflexivity|split; [reflexivity|]]]);
      left; repeat split; reflexivity.
  - destruct (display (entry :: more) (valid_people (globals s))
                (people_status (globals s))) as [vs|] eqn:Hd; [|discriminate].
    intros H. exists (entry :: more), caps'. split; [reflexivity|].
    destruct key; simpl in H; injection H as <-; simpl;
      (split; [reflexivity|split; [reflexivity|split; [reflexivity|]]]);
      right; rewrite Hd;
      (split; [discriminate|split; [reflexivity|split; [reflexivity|]]]);
      destruct (dispatch_due (globals s)); split; reflexivity.
Qed.

Lemma alter_ref_img (f : Status Image -> Status Image) (k n : string)
    (ps : gmap string (Status Image)) :
  (forall r, ref_img (f r) = ref_img r) ->
  ref_img <$> alter f k ps !! n = ref_img <$> ps !! n.
Proof.
  intros Hf. destruct (decide (n = k)) as [->|Hne].
  - rewrite lookup_alter_eq. destruct (ps !! k); simpl; [now rewrite Hf | reflexivity].
  - now rewrite lookup_alter_ne by congruence.
Qed.

Lemma worker_step_ref_img (frames_dict : list (Z * Frame)) (w : Worker)
    (g : Globals Frame Image) (n : string) :
  ref_img <$> people_status (snd (worker_step verify frames_dict w g)) !! n
  = ref_img <$> people_status g !! n.
Proof.
  destruct w as [[|m rest]|m b rest|m b rest|m b rest|o]; simpl;
    try (destruct (people_status g !! m)); simpl; try reflexivity;
    unfold store_is_match, store_best_cam_index, store_distance;
    now apply alter_ref_img.
Qed.

Lemma work_globals tid (s : System Frame Image) :
  valid_people (globals (work verify tid s)) = valid_people (globals s) /\
  caps (globals (work verify tid s)) = caps (globals s) /\
  counter (globals (work verify tid s)) = counter (globals s) /\
  forall n, ref_img <$> people_status (globals (work verify tid s)) !! n
            = ref_img <$> people_status (globals s) !! n.
Proof.
  unfold work. destruct (threads s !! tid) as [t|]; [|auto].
  pose proof (worker_step_globals verify (frames_copy t) (pc t) (globals s)) as H.
  pose proof (worker_step_ref_img (frames_copy t) (pc t) (globals s)) as Hr.
  simpl in H. destruct H as (Hvp & Hc & Hn & _ & _).
  destruct (worker_step verify (frames_copy t) (pc t) (globals s)) as [[w'|] g'];
    simpl in *; auto.
Qed.

(** X7.  Nothing the process does after startup changes who is tracked or
    against which picture: in every later state [valid_people] is the same
    list, [people_status] has the same keys, and every record holds the
    reference picture it was created with. *)
Theorem people_and_pictures_never_change
    (schedule : list Event) (s0 s : System Frame Image) :
  run verify schedule s0 = Running s ->
  valid_people (globals s) = valid_people (globals s0) /\
  dom (people_status (globals s)) = dom (people_status (globals s0)) /\
  forall name, ref_img <$> people_status (globals s) !! name
               = ref_img <$> people_status (globals s0) !! name.
Proof.
  intros Hrun.
  assert (H : valid_people (globals s) = valid_people (globals s0) /\
              forall name, ref_img <$> people_status (globals s) !! name
                           = ref_img <$> people_status (globals s0) !! name).
  { revert Hrun.
    apply (run_invariant verify
             (fun s => valid_people (globals s) = valid_people (globals s0) /\
                forall name, ref_img <$> people_status (globals s) !! name
                             = ref_img <$> people_status (globals s0) !! name)).
    - intros key s1 s2 out [Hvp Hr] Ht.
      assert (Hs : system_of (tick key s1) = Some s2) by now rewrite Ht.
      destruct (tick_people_status key s1 s2 Hs) as [Hps Hvp'].
      split; [congruence|]. intros name. now rewrite Hps.
    - intros tid s1 [Hvp Hr]. destruct (work_globals tid s1) as (H1 & _ & _ & H2).
      split; [congruence|]. intros name. now rewrite H2.
    - auto. }
  destruct H as [Hvp Hr]. split; [exact Hvp|]. split; [|exact Hr].
  apply set_eq. intros n. rewrite !elem_of_dom.
  rewrite <- !(fmap_is_Some ref_img). now rewrite Hr.
Qed.

Lemma run_caps (schedule : list Event) (s0 s : System Frame Image) :
  run verify schedule s0 = Running s ->
  caps (globals s) = advance (ticks schedule) (caps (globals s0)).
Proof.
  revert s0. induction schedule as [|[key|tid] rest IH]; intros s0 Hrun;
    simpl in Hrun.
  - injection Hrun as <-. symmetry. apply advance_0.
  - destruct (tick key s0) as [s1 out| |] eqn:Ht; try discriminate.
    assert (Hs : system_of (tick key s0) = Some s1) by now rewrite Ht.
    destruct (tick_effect key s0 s1 Hs) as (fr & caps' & Hcap & _ & _ & Hc & _).
    rewrite (IH s1 Hrun), Hc, (capture_advance _ _ _ Hcap).
    unfold ticks. simpl. apply advance_S.
  - rewrite (IH _ Hrun). destruct (work_globals tid s0) as (_ & -> & _).
    reflexivity.
Qed.

Lemma advance_length (n : nat) (cs : list (VideoCapture Frame)) :
  length (advance n cs) = length cs.
Proof. destruct cs; simpl; [reflexivity|]. now rewrite length_map. Qed.

(** X8.  Over a run with [n] iterations of the main loop, camera 0 has been
    read [2 * n] times and every other camera [n] times, whether the reads
    delivered frames or not and whatever the worker did in between; the
    capture objects are otherwise the ones startup created, and none is added
    or dropped. *)
Theorem cameras_are_read_once_per_iteration_and_camera_zero_twice
    (schedule : list Event) (s0 s : System Frame Image) :
  run verify schedule s0 = Running s ->
  caps (globals s) = advance (ticks schedule) (caps (globals s0)) /\
  length (caps (globals s)) = length (caps (globals s0)).
Proof.
  intros Hrun. rewrite (run_caps schedule s0 s Hrun).
  split; [reflexivity | apply advance_length].
Qed.


Lemma read_all_elem i (cs : list (VideoCapture Frame)) (k : Z) (f : Frame) :
  (k, f) ∈ fst (read_all i cs) <->
  exists j cap, k = (i + Z.of_nat j)%Z /\ cs !! j = Some cap /\
    feed cap (cursor cap) = Some f.
Proof.
  revert i. induction cs as [|c rest IH]; intros i; simpl.
  - split; [intros H; inversion H | intros (j & cap & _ & H & _); discriminate].
  - assert (Hrest : (k, f) ∈ fst (read_all (i + 1) rest) <->
              exists j cap, k = (i + Z.of_nat (S j))%Z /\ rest !! j = Some cap /\
                feed cap (cursor cap) = Some f).
    { rewrite IH. split; intros (j & cap & -> & H1 & H2); exists j, cap;
        (split; [lia | auto]). }
    destruct (feed c (cursor c)) as [f0|] eqn:Hf; simpl.
    + rewrite elem_of_cons, Hrest. split.
      * intros [H|(j & cap & -> & H1 & H2)].
        -- injection H as -> ->. exists 0%nat, c. split; [lia | auto].
        -- exists (S j), cap. auto.
      * intros ([|j] & cap & -> & H1 & H2); simpl in H1.
        -- injection H1 as <-. left. f_equal; [lia | congruence].
        -- right. exists j, cap. auto.
    + rewrite Hrest. split.
      * intros (j & cap & -> & H1 & H2). exists (S j), cap. auto.
      * intros ([|j] & cap & -> & H1 & H2); simpl in H1.
        -- injection H1 as <-. congruence.
        -- exists j, cap. auto.
Qed.

Lemma frame_of_elem (frames_dict : list (Z * Frame)) (k : Z) (f : Frame) :
  frame_of frames_dict k = Some f -> (k, f) ∈ frames_dict.
Proof.
  induction frames_dict as [|[k' f'] l IH]; simpl; [discriminate|].
  destruct (Z.eqb_spec k' k) as [->|Hne].
  - intros H. injection H as ->. now left.
  - intros H. right. auto.
Qed.

Lemma captured_dictionary_elem
    (cs caps' : list (VideoCapture Frame)) (current_frames : list (Z * Frame)) :
  capture cs = inr (current_frames, caps') ->
  forall k f,
    (k, f) ∈ current_frames <->
    exists j cap, k = Z.of_nat j /\ after_first_read cs !! j = Some cap /\
      feed cap (cursor cap) = Some f.
Proof.
  destruct cs as [|cap0 rest]; [discriminate|]. unfold capture.
  generalize (read_all_elem 0 (snd (read cap0) :: rest)).
  generalize (read_all 0 (snd (read cap0) :: rest)).
  intros p Hp H k f. injection H as ->. simpl in Hp. rewrite Hp.
  cbn [after_first_read].
  split; intros (j & cap & -> & H); exists j, cap; (split; [lia | exact H]).
Qed.

Lemma captured_keys_in_range
    (cs caps' : list (VideoCapture Frame)) (current_frames : list (Z * Frame)) :
  capture cs = inr (current_frames, caps') ->
  keys_in_range (length cs) current_frames.
Proof.
  intros Hcap. unfold keys_in_range, keys. apply Forall_forall. intros k Hk.
  apply list_elem_of_In, in_map_iff in Hk as ([k' f] & <- & Hin).
  apply list_elem_of_In, (captured_dictionary_elem _ _ _ Hcap) in Hin
    as (j & cap & -> & Hj & _).
  apply lookup_lt_Some in Hj.
  destruct cs as [|cap0 rest]; simpl in *; lia.
Qed.

Lemma captured_frame_of
    (cs caps' : list (VideoCapture Frame)) (current_frames : list (Z * Frame)) :
  capture cs = inr (current_frames, caps') ->
  forall k f, frame_of current_frames k = Some f <-> (k, f) ∈ current_frames.
Proof.
  intros Hcap k f. split; [apply frame_of_elem|].
  intros Hin. apply (captured_dictionary_elem _ _ _ Hcap) in Hin
    as (j & cap & -> & Hj & Hf).
  destruct cs as [|cap0 rest]; [discriminate|]. unfold capture in Hcap.
  cbn [after_first_read] in Hj.
  pose proof (read_all_frame_of 0 _ j cap Hj) as Hfo. revert Hfo Hcap.
  generalize (read_all 0 (snd (read cap0) :: rest)).
  intros p Hfo H. injection H as ->. simpl in Hfo.
  rewrite Z.add_0_l in Hfo. congruence.
Qed.

(** X9.  The dictionary an iteration captures holds exactly the cameras that
    delivered a frame at this iteration's read (for camera 0 the second of
    its two reads), each under its index in [caps] and with the frame it
    delivered; its keys are in ascending order and are indices of [caps],
    and looking a key up gives the entry. *)
Theorem captured_dictionary_holds_delivering_cameras
    (cs caps' : list (VideoCapture Frame)) (current_frames : list (Z * Frame)) :
  capture cs = inr (current_frames, caps') ->
  ascending current_frames /\
  keys_in_range (length cs) current_frames /\
  (forall k f,
     (k, f) ∈ current_frames <->
     exists j cap, k = Z.of_nat j /\ after_first_read cs !! j = Some cap /\
       feed cap (cursor cap) = Some f) /\
  (forall k f, frame_of current_frames k = Some f <-> (k, f) ∈ current_frames).
Proof.
  intros Hcap. destruct (capture_keys _ _ _ Hcap) as [Hasc _].
  split; [exact Hasc|]. split; [now apply (captured_keys_in_range cs caps')|].
  split; [now apply (captured_dictionary_elem cs caps')|].
  now apply (captured_frame_of cs caps').
Qed.


(** X10.  An iteration in which no camera delivers a frame is skipped: it
    prints the waiting message, starts no pass even when one is due, and
    leaves the counter, the flag, the threads and the records as they were.
    An iteration in which some camera delivers counts: the counter goes up
    by one. *)
Theorem iteration_without_frames_is_skipped key (s s' : System Frame Image) :
  system_of (tick key s) = Some s' ->
  ((forall j cap, after_first_read (caps (globals s)) !! j = Some cap ->
      feed cap (cursor cap) = None) ->
   shown_of (tick key s) = Some WaitingForCameras /\
   counter (globals s') = counter (globals s) /\
   is_processing (globals s') = is_processing (globals s) /\
   threads s' = threads s /\
   people_status (globals s') = people_status (globals s)) /\
  ((exists j cap f, after_first_read (caps (globals s)) !! j = Some cap /\
      feed cap (cursor cap) = Some f) ->
   shown_of (tick key s) <> Some WaitingForCameras /\
   counter (globals s') = (counter (globals s) + 1)%Z).
Proof.
  intros Hs.
  destruct (tick_effect key s s' Hs) as (fr & caps' & Hcap & Hps & _ & _ & Hcase).
  pose proof (captured_dictionary_elem _ _ _ Hcap) as Helem.
  split.
  - intros Hnone.
    destruct Hcase as [(_ & Hth & Hfl & Hcnt & Hsh)|(Hne & _)]; [auto|].
    exfalso. destruct fr as [|[k f] more]; [congruence|].
    destruct (proj1 (Helem k f)) as (j & cap & _ & Hj & Hf); [now left|].
    rewrite (Hnone j cap Hj) in Hf. discriminate.
  - intros (j & cap & f & Hj & Hf).
    destruct Hcase as [(Hnil & _)|(_ & Hcnt & Hsh & _)].
    + exfalso. assert (Hin : (Z.of_nat j, f) ∈ fr) by (apply Helem; eauto).
      rewrite Hnil in Hin. inversion Hin.
    + split; [|exact Hcnt]. rewrite Hsh.
      destruct (display fr _ _); simpl; congruence.
Qed.


Lemma display_windows (current_frames : list (Z * Frame)) (names : list string)
    (ps : gmap string (Status Image)) (vs : list (string * View Frame)) :
  display current_frames names ps = Some vs ->
  map fst vs = names /\
  forall name v, (name, v) ∈ vs ->
    exists r, ps !! name = Some r /\ v = view_of current_frames r.
Proof.
  revert vs. induction names as [|n rest IH]; intros vs; simpl.
  - intros H. injection H as <-. split; [reflexivity|]. intros name v H. inversion H.
  - destruct (ps !! n) as [r|] eqn:Hr; [|discriminate].
    destruct (display current_frames rest ps) as [ws|]; [|discriminate].
    intros H. injection H as <-. destruct (IH ws eq_refl) as [Hm Hv].
    split; [simpl; now rewrite Hm|].
    intros name v Hin. apply elem_of_cons in Hin as [Hin|Hin]; [|auto].
    injection Hin as -> ->. eauto.
Qed.

Lemma view_of_winner (current_frames : list (Z * Frame)) (r : Status Image)
    (c : Z) (d : float) (f : Frame) :
  view_of current_frames r = Winner c d f <->
  is_match r = true /\ c = best_cam_index r /\ d = distance r /\
  frame_of current_frames c = Some f.
Proof.
  unfold view_of. destruct (is_match r).
  - destruct (frame_of current_frames (best_cam_index r)) as [f'|] eqn:Hf; split.
    + intros H. injection H as <- <- <-. auto.
    + intros (_ & -> & -> & H). congruence.
    + discriminate.
    + intros (_ & -> & -> & H). congruence.
  - split; [discriminate|]. intros (H & _). discriminate.
Qed.

(** X11.  The windows of an iteration during which no worker runs: no
    thread is alive and the iteration starts none.  The records then stand
    still while lines 160 to 187 read them, and what the iteration shows is
    one window per person of [valid_people], in that order.  A window shows a
    winner exactly when the person's record has the match flag set and the
    recorded camera delivered a frame in this very iteration; it then shows
    that fresh frame with the recorded index and distance.  Otherwise, also
    when the recorded camera is -1 or went silent, it shows the search
    screen. *)
Theorem windows_follow_records key (s : System Frame Image)
    (current_frames : list (Z * Frame)) (caps' : list (VideoCapture Frame))
    (vs : list (string * View Frame)) :
  threads s = [] ->
  dispatch_due (globals s) = false ->
  capture (caps (globals s)) = inr (current_frames, caps') ->
  shown_of (tick key s) = Some (Windows vs) ->
  (forall s', system_of (tick key s) = Some s' -> threads s' = []) /\
  map fst vs = valid_people (globals s) /\
  forall name v, (name, v) ∈ vs ->
    exists r, people_status (globals s) !! name = Some r /\
      (forall c d f,
         v = Winner c d f <->
         is_match r = true /\ c = best_cam_index r /\ d = distance r /\
         (c, f) ∈ current_frames) /\
      (v = Searching <->
       is_match r = false \/ forall f, (best_cam_index r, f) ∉ current_frames).
Proof.
  intros Hth Hdue Hcap Hshown.
  assert (Hvs : display current_frames (valid_people (globals s))
                  (people_status (globals s)) = Some vs /\
                forall s', system_of (tick key s) = Some s' -> threads s' = []).
  { revert Hshown. unfold tick. rewrite Hcap, Hdue.
    destruct current_frames as [|entry more].
    - destruct key; discriminate.
    - destruct (display (entry :: more) _ _) as [ws|]; [|discriminate].
      destruct key; simpl; intros H; injection H as ->;
        (split; [reflexivity|]); intros s' H'; injection H' as <-; exact Hth. }
  destruct Hvs as [Hvs Hquiet]. split; [exact Hquiet|].
  destruct (display_windows _ _ _ _ Hvs) as [Hm Hv]. split; [exact Hm|].
  intros name v Hin. destruct (Hv name v Hin) as (r & Hr & ->).
  exists r. split; [exact Hr|].
  pose proof (captured_frame_of _ _ _ Hcap) as Hfo. split.
  - intros c d f. rewrite view_of_winner, Hfo. reflexivity.
  - unfold view_of. destruct (is_match r).
    + destruct (frame_of current_frames (best_cam_index r)) as [f|] eqn:Hf; split.
      * discriminate.
      * intros [H|H]; [discriminate|]. exfalso. apply (H f). now apply Hfo.
      * intros _. right. intros f Hin'. apply Hfo in Hin'. congruence.
      * reflexivity.
    + split; auto.
Qed.

Lemma load_records_initial (config : list (string * option Image))
    (name : string) (r : Status Image) :
  fst (load_reference_images config) !! name = Some r ->
  exists img, r = initial_status img.
Proof.
  induction config as [|[n o] l IH] using rev_ind.
  - unfold load_reference_images. simpl. rewrite lookup_empty. discriminate.
  - rewrite load_reference_images_snoc. simpl. destruct o as [img|]; simpl; [|exact IH].
    destruct (decide (name = n)) as [->|Hne].
    + rewrite lookup_insert_eq. intros H. injection H as <-. eauto.
    + rewrite lookup_insert_ne by congruence. exact IH.
Qed.

Lemma check_every_camera_sane (n : nat) (ref : Image) (frames_dict : list (Z * Frame)) :
  keys_in_range n frames_dict ->
  sane n (current_best_cam (check_every_camera verify ref frames_dict))
    (current_best_dist (check_every_camera verify ref frames_dict)).
Proof.
  intros Hk.
  destruct (check_every_camera_sound verify ref frames_dict) as [Hle H].
  split; [|exact Hle].
  destruct H as [[-> _]|(_ & _ & Hv)]; [now left|]. right.
  apply verified_key in Hv. unfold keys_in_range in Hk.
  rewrite Forall_forall in Hk. auto.
Qed.

Lemma worker_step_sane (n : nat) (frames_dict : list (Z * Frame)) (w : Worker)
    (g : Globals Frame Image) :
  (forall name r, people_status g !! name = Some r ->
     sane n (best_cam_index r) (distance r)) ->
  keys_in_range n frames_dict ->
  sane_worker n w ->
  (forall name r, people_status (snd (worker_step verify frames_dict w g)) !! name = Some r ->
     sane n (best_cam_index r) (distance r)) /\
  (forall w', fst (worker_step verify frames_dict w g) = Some w' -> sane_worker n w').
Proof.
  intros Hrec Hkeys Hw.
  destruct w as [[|m rest]|m b rest|m b rest|m b rest|o]; simpl.
  - split; [exact Hrec|]. intros w' H. now injection H as <-.
  - destruct (people_status g !! m) as [r|]; simpl.
    + split; [exact Hrec|]. intros w' H. injection H as <-. simpl.
      now apply check_every_camera_sane.
    + split; [exact Hrec|]. intros w' H. now injection H as <-.
  - split; [|intros w' H; now injection H as <-].
    intros name r. unfold store_is_match.
    destruct (decide (name = m)) as [->|Hne].
    + rewrite lookup_alter_eq. destruct (people_status g !! m) as [r0|] eqn:E;
        [|discriminate]. simpl. intros H. injection H as <-. simpl. eauto.
    + rewrite lookup_alter_ne by congruence. apply Hrec.
  - split; [|intros w' H; now injection H as <-].
    intros name r. unfold store_best_cam_index.
    destruct (decide (name = m)) as [->|Hne].
    + rewrite lookup_alter_eq. destruct (people_status g !! m) as [r0|] eqn:E;
        [|discriminate]. simpl. intros H. injection H as <-. simpl.
      destruct Hw as [Hc _]. destruct (Hrec m r0 E) as [_ Hd]. split; assumption.
    + rewrite lookup_alter_ne by congruence. apply Hrec.
  - split; [|intros w' H; now injection H as <-].
    intros name r. unfold store_distance.
    destruct (decide (name = m)) as [->|Hne].
    + rewrite lookup_alter_eq. destruct (people_status g !! m) as [r0|] eqn:E;
        [|discriminate]. simpl. intros H. injection H as <-. simpl.
      destruct Hw as [_ Hd]. destruct (Hrec m r0 E) as [Hc _]. split; assumption.
    + rewrite lookup_alter_ne by congruence. apply Hrec.
  - split; [exact Hrec|]. discriminate.
Qed.

Lemma sane_system_startup (config : list (string * option Image))
    (sources : list (VideoCapture Frame)) :
  sane_system (startup config sources).
Proof.
  split; simpl.
  - intros name r Hr. apply load_records_initial in Hr as [img ->].
    split; [now left | reflexivity].
  - intros t Ht. inversion Ht.
Qed.

Lemma sane_system_tick key (s s' : System Frame Image) :
  sane_system s -> system_of (tick key s) = Some s' -> sane_system s'.
Proof.
  intros [Hrec Hth] Hs.
  destruct (tick_effect key s s' Hs) as (fr & caps' & Hcap & Hps & _ & Hc & Hcase).
  assert (Hlen : length (caps (globals s')) = length (caps (globals s))).
  { rewrite Hc, (capture_advance _ _ _ Hcap). apply advance_length. }
  unfold sane_system. rewrite Hlen, Hps. split; [exact Hrec|].
  intros t Ht.
  destruct Hcase as [(_ & Hth' & _)|(_ & _ & _ & Hd)].
  - rewrite Hth' in Ht. auto.
  - destruct (dispatch_due (globals s)); destruct Hd as [Hth' _]; rewrite Hth' in Ht;
      [|auto].
    apply elem_of_app in Ht as [Ht|Ht]; [auto|].
    apply list_elem_of_singleton in Ht as ->. simpl. split; [|exact I].
    now apply (captured_keys_in_range _ caps').
Qed.

Lemma sane_system_work tid (s : System Frame Image) :
  gate s -> sane_system s -> sane_system (work verify tid s).
Proof.
  intros Hg [Hrec Hth]. unfold work.
  destruct (threads s !! tid) as [t|] eqn:Ht; [|split; assumption].
  destruct Hg as [[Hnil _]|(t0 & Hone & _)].
  { rewrite Hnil in Ht. discriminate. }
  rewrite Hone in Ht. destruct tid as [|tid]; [|discriminate].
  injection Ht as <-.
  destruct (Hth t0) as [Hk Hw]; [rewrite Hone; now left|].
  pose proof (worker_step_globals verify (frames_copy t0) (pc t0) (globals s)) as HG.
  simpl in HG. destruct HG as (_ & Hcaps & _).
  destruct (worker_step_sane _ (frames_copy t0) (pc t0) (globals s) Hrec Hk Hw)
    as [Hrec' Hw'].
  destruct (worker_step verify (frames_copy t0) (pc t0) (globals s)) as [[w'|] g'];
    simpl in *; unfold sane_system; simpl; rewrite Hcaps; (split; [exact Hrec'|]).
  - rewrite Hone. simpl. intros t Hin. apply list_elem_of_singleton in Hin as ->.
    simpl. split; [exact Hk | now apply Hw'].
  - rewrite Hone. simpl. intros t Hin. inversion Hin.
Qed.

(** X12.  In every state the process reaches, under any interleaving of the
    main loop and the worker and also in the middle of the three assignments
    of lines 115 to 117, every record holds a camera index that is -1 or the
    index of a configured camera, and a distance of at most 10.0. *)
Theorem records_stay_in_range
    (config : list (string * option Image)) (sources : list (VideoCapture Frame))
    (schedule : list Event) (s : System Frame Image) :
  run verify schedule (startup config sources) = Running s ->
  forall name r, people_status (globals s) !! name = Some r ->
    (best_cam_index r = (-1)%Z \/
     (0 <= best_cam_index r < Z.of_nat (length sources))%Z) /\
    (distance r <=? 10)%float = true.
Proof.
  intros Hrun.
  assert (H : gate s /\ sane_system s).
  { revert Hrun. apply (run_invariant verify (fun s => gate s /\ sane_system s)).
    - intros key s1 s2 out [Hg Hs] Ht.
      assert (Hsys : system_of (tick key s1) = Some s2) by now rewrite Ht.
      split; [now apply (gate_tick key s1) | now apply (sane_system_tick key s1)].
    - intros tid s1 [Hg Hs]. split; [now apply gate_work | now apply sane_system_work].
    - split; [apply gate_startup | apply sane_system_startup]. }
  destruct H as [_ [Hrec _]].
  pose proof (run_caps schedule _ s Hrun) as Hc.
  apply (f_equal length) in Hc. rewrite advance_length in Hc. simpl in Hc.
  rewrite Hc in Hrec. exact Hrec.
Qed.


Lemma counter_never_decreases (schedule : list Event) (s s' : System Frame Image) :
  run verify schedule s = Running s' ->
  (counter (globals s) <= counter (globals s'))%Z.
Proof.
  revert s. induction schedule as [|[key|tid] rest IH]; intros s Hrun; simpl in Hrun.
  - injection Hrun as <-. lia.
  - destruct (tick key s) as [s1 out| |] eqn:Ht; try discriminate.
    assert (Hs : system_of (tick key s) = Some s1) by now rewrite Ht.
    destruct (tick_effect key s s1 Hs)
      as (fr & caps' & _ & _ & _ & _ & [(_ & _ & _ & Hc & _)|(_ & Hc & _)]);
      specialize (IH s1 Hrun); lia.
  - specialize (IH _ Hrun). destruct (work_globals tid s) as (_ & _ & Hc & _). lia.
Qed.

Lemma tick_starting_a_pass key (s s' : System Frame Image) :
  system_of (tick key s) = Some s' ->
  threads s' <> threads s ->
  (counter (globals s) mod 30 = 0)%Z /\ is_processing (globals s) = false /\
  counter (globals s') = (counter (globals s) + 1)%Z.
Proof.
  intros Hs Hne.
  destruct (tick_effect key s s' Hs)
    as (fr & caps' & _ & _ & _ & _ & [(_ & Hth & _)|(_ & Hc & _ & Hd)]);
    [contradiction|].
  unfold dispatch_due in Hd.
  destruct ((counter (globals s) mod 30 =? 0)%Z) eqn:Hm;
    destruct (is_processing (globals s)); simpl in Hd;
    try (destruct Hd as [Hth _]; contradiction).
  apply Z.eqb_eq in Hm. auto.
Qed.

(** X14.  Passes are rationed by the counter: between the iteration that
    starts one pass and the iteration that starts the next, the counter has
    advanced by at least 30, that is at least 30 iterations have captured a
    frame, however quickly the first pass finished. *)
Theorem passes_start_thirty_counts_apart
    (key1 key2 : bool) (schedule : list Event)
    (s1 s1' s2 s2' : System Frame Image) :
  system_of (tick key1 s1) = Some s1' ->
  threads s1' <> threads s1 ->
  run verify schedule s1' = Running s2 ->
  system_of (tick key2 s2) = Some s2' ->
  threads s2' <> threads s2 ->
  (counter (globals s1) + 30 <= counter (globals s2))%Z.
Proof.
  intros Ht1 Hn1 Hrun Ht2 Hn2.
  destruct (tick_starting_a_pass key1 s1 s1' Ht1 Hn1) as (Hm1 & _ & Hc1).
  destruct (tick_starting_a_pass key2 s2 s2' Ht2 Hn2) as (Hm2 & _ & _).
  pose proof (counter_never_decreases schedule s1' s2 Hrun) as Hle.
  pose proof (Z.div_mod (counter (globals s1)) 30) as D1.
  pose proof (Z.div_mod (counter (globals s2)) 30) as D2.
  lia.
Qed.


Lemma run_app (a b : list Event) (s0 : System Frame Image) :
  run verify (a ++ b) s0
  = match run verify a s0 with
    | Running s => run verify b s
    | Exited code => Exited code
    end.
Proof.
  revert s0. induction a as [|[key|tid] a IH]; intros s0; simpl; [reflexivity| |apply IH].
  destruct (tick key s0); [apply IH | reflexivity | reflexivity].
Qed.

Lemma advance_silent (n : nat) (cs : list (VideoCapture Frame)) :
  silent cs -> silent (advance n cs).
Proof.
  intros H cap Hin m. destruct cs as [|cap0 rest]; simpl in Hin; [inversion Hin|].
  apply elem_of_cons in Hin as [->|Hin]; simpl.
  - apply (H cap0). now left.
  - apply list_elem_of_In, in_map_iff in Hin as (c & <- & Hc). simpl.
    apply (H c). right. now apply list_elem_of_In.
Qed.

(** An iteration in which no camera can deliver: only the cursors move. *)
Lemma tick_silent key (s : System Frame Image) :
  caps (globals s) <> [] ->
  silent (caps (globals s)) ->
  tick key s
  = (if key then Quit else Continue)
      (mkSystem (mkGlobals (people_status (globals s)) (valid_people (globals s))
                   (advance 1 (caps (globals s))) (is_processing (globals s))
                   (counter (globals s)))
         (threads s))
      WaitingForCameras.
Proof.
  intros Hne Hsil. unfold tick.
  destruct (capture (caps (globals s))) as [e|[fr caps']] eqn:Hcap.
  - destruct (caps (globals s)); [contradiction | discriminate].
  - rewrite (capture_advance _ _ _ Hcap).
    destruct fr as [|[k f] more]; [now destruct key|]. exfalso.
    destruct (proj1 (captured_dictionary_elem _ _ _ Hcap k f)) as (j & cap & _ & Hj & Hf);
      [now left|].
    destruct (caps (globals s)) as [|cap0 rest]; [contradiction|].
    cbn [after_first_read] in Hj. destruct j as [|j]; simpl in Hj.
    + injection Hj as <-. simpl in Hf. rewrite (Hsil cap0) in Hf; [discriminate | now left].
    + rewrite (Hsil cap) in Hf; [discriminate|]. right.
      now apply list_elem_of_lookup_2 in Hj.
Qed.

Lemma silent_run (schedule : list Event) :
  forall s0 : System Frame Image,
    threads s0 = [] ->
    caps (globals s0) <> [] ->
    silent (caps (globals s0)) ->
    no_quit schedule ->
    exists s,
      run verify schedule s0 = Running s /\
      people_status (globals s) = people_status (globals s0) /\
      valid_people (globals s) = valid_people (globals s0) /\
      is_processing (globals s) = is_processing (globals s0) /\
      counter (globals s) = counter (globals s0) /\
      threads s = [] /\ caps (globals s) <> [] /\ silent (caps (globals s)).
Proof.
  induction schedule as [|[key|tid] rest IH]; intros s0 Hth Hne Hsil Hq; simpl.
  - exists s0. repeat split; auto.
  - destruct key.
    { exfalso. apply (Hq (Tick true)); [now left | reflexivity]. }
    rewrite (tick_silent false s0 Hne Hsil).
    destruct (IH (mkSystem (mkGlobals (people_status (globals s0))
                              (valid_people (globals s0))
                              (advance 1 (caps (globals s0)))
                              (is_processing (globals s0)) (counter (globals s0)))
                    (threads s0))) as (s & Hrun & H); simpl.
    + exact Hth.
    + destruct (caps (globals s0)); [contradiction | discriminate].
    + now apply advance_silent.
    + intros ev Hev. apply Hq. now right.
    + exists s. split; [exact Hrun | exact H].
  - assert (Hw : work verify tid s0 = s0).
    { unfold work. rewrite Hth. now destruct tid. }
    rewrite Hw. apply IH; auto. intros ev Hev. apply Hq. now right.
Qed.

(** C8, as the code has it.  Startup checks nothing and has no exit: for every
    configuration it ends in the state in which the main loop is entered,
    with the names whose picture loaded (possibly none) and one capture
    object per configured source.  When at least one source is configured
    and none delivers a frame, the process keeps running whether pictures
    loaded or not: every iteration prints the waiting message, starts no pass
    and changes neither the records nor the counter, and a press of [q] ends
    the process with exit code 0. *)
Theorem startup_checks_nothing
    (config : list (string * option Image)) (sources : list (VideoCapture Frame)) :
  valid_people (globals (startup config sources)) = loaded_names config /\
  caps (globals (startup config sources)) = sources /\
  threads (startup config sources) = [] /\
  (sources <> [] -> silent sources ->
   forall schedule, no_quit schedule ->
     run verify (schedule ++ [Tick true]) (startup config sources) = Exited 0 /\
     exists s,
       run verify schedule (startup config sources) = Running s /\
       people_status (globals s) = people_status (globals (startup config sources)) /\
       threads s = [] /\ is_processing (globals s) = false /\
       counter (globals s) = 0%Z /\
       forall key, shown_of (tick key s) = Some WaitingForCameras).
Proof.
  split; [apply load_valid_people|]. split; [reflexivity|]. split; [reflexivity|].
  intros Hne Hsil schedule Hq.
  destruct (silent_run schedule (startup config sources) eq_refl Hne Hsil Hq)
    as (s & Hrun & Hps & _ & Hfl & Hc & Hth & Hne' & Hsil').
  split.
  - rewrite run_app, Hrun. simpl. now rewrite (tick_silent true s Hne' Hsil').
  - exists s. split; [exact Hrun|]. split; [exact Hps|]. split; [exact Hth|].
    split; [exact Hfl|]. split; [exact Hc|].
    intros key. rewrite (tick_silent key s Hne' Hsil'). now destruct key.
Qed.

End MainLoop.


(** ** The scenarios *)

Section Scenarios.

Import Scenario.

Local Open Scope float_scope.

Lemma two_people_valid name :
  name ∈ valid_people (globals two_cameras) -> name = "A"%string \/ name = "B"%string.
Proof.
  intros H. apply list_elem_of_In in H. vm_compute in H.
  destruct H as [<-|[<-|[]]]; auto.
Qed.

Lemma two_frames_ascending : ascending two_frames.
Proof. unfold ascending, keys, two_frames. simpl. repeat constructor. Qed.

(** Person B of the two-camera scenario is verified nowhere. *)
Lemma unverified_person_witness :
  people_status (fst (process_multi_camera verify_two two_frames (globals two_cameras)))
    !! "B"%string
  = Some (mkStatus (-1) 10 false "B.png"%string).
Proof.
  apply (unverified_person_published_as_searching verify_two two_frames
           (globals two_cameras) "B" (initial_status "B.png"%string)).
  - apply registered_startup.
  - apply list_elem_of_In. vm_compute. auto.
  - reflexivity.
  - intros c d (f & _ & Hv). vm_compute in Hv. discriminate.
Defined.

(** Person A of the two-camera scenario: camera 0 at 0.25 beats camera 1 at
    0.375. *)
Lemma published_best_witness :
  exists r',
    people_status (fst (process_multi_camera verify_two two_frames (globals two_cameras)))
      !! "A"%string = Some r' /\
    is_match r' = true /\
    verified_at verify_two "A.png"%string two_frames (best_cam_index r') (distance r') /\
    forall c d, verified_at verify_two "A.png"%string two_frames c d ->
      (d <? distance r') = false /\
      ((d =? d) = true -> (distance r' <=? d) = true) /\
      ((d =? distance r') = true -> (best_cam_index r' <= c)%Z).
Proof.
  apply (published_best_is_least_verified verify_two two_frames
           (globals two_cameras) "A" (initial_status "A.png"%string) 0 0.25).
  - exact two_frames_ascending.
  - apply registered_startup.
  - apply list_elem_of_In. vm_compute. auto.
  - reflexivity.
  - exists (0%Z, 1%nat). split; [left | reflexivity].
  - reflexivity.
Defined.

(** C1 fails as stated.  The only camera verifies person A at distance 12.0;
    the pass publishes the flag, but distance 10.0 and camera index -1, not
    12.0 and camera 0. *)
Lemma far_match_is_not_published :
  verified_at verify_far "A.png"%string one_frame 0 12 /\
  (forall c d, verified_at verify_far "A.png"%string one_frame c d -> c = 0%Z /\ d = 12) /\
  people_status (fst (process_multi_camera verify_far one_frame (globals one_camera)))
    !! "A"%string
  = Some (mkStatus (-1) 10 true "A.png"%string) /\
  (10 =? 12) = false /\ (-1)%Z <> 0%Z.
Proof.
  split; [|split; [|split; [|split]]].
  - exists (0%Z, 1%nat). split; [left | reflexivity].
  - intros c d (f & Hin & Hv). apply list_elem_of_singleton in Hin.
    injection Hin as -> ->. injection Hv as <-. auto.
  - reflexivity.
  - reflexivity.
  - discriminate.
Qed.

(** The invariant of the published record at person A of the two-camera
    scenario. *)
Lemma published_status_invariant_witness :
  snd (process_multi_camera verify_two two_frames (globals two_cameras)) = Completed /\
  exists r',
    people_status (fst (process_multi_camera verify_two two_frames (globals two_cameras)))
      !! "A"%string = Some r' /\
    (is_match r' = true ->
       ((0 <= best_cam_index r')%Z /\
        (distance r' <? 10) = true /\
        verified_at verify_two "A.png"%string two_frames (best_cam_index r') (distance r') /\
        forall c d, verified_at verify_two "A.png"%string two_frames c d ->
          (d <? distance r') = false)
       \/
       (best_cam_index r' = (-1)%Z /\ distance r' = 10 /\
        forall c d, verified_at verify_two "A.png"%string two_frames c d ->
          (d <? 10) = false)) /\
    (is_match r' = false -> best_cam_index r' = (-1)%Z).
Proof.
  apply (published_status_invariant verify_two two_frames
           (globals two_cameras) "A" (initial_status "A.png"%string)).
  - exact two_frames_ascending.
  - unfold keys, two_frames. simpl. repeat constructor; lia.
  - apply registered_startup.
  - apply list_elem_of_In. vm_compute. auto.
  - reflexivity.
Defined.

(** C2 fails as stated.  The only camera verifies person A at distance 10.0;
    the completed pass publishes the flag with camera index -1. *)
Lemma match_flag_without_camera :
  snd (process_multi_camera verify_edge one_frame (globals one_camera)) = Completed /\
  verified_at verify_edge "A.png"%string one_frame 0 10 /\
  exists r',
    people_status (fst (process_multi_camera verify_edge one_frame (globals one_camera)))
      !! "A"%string = Some r' /\
    is_match r' = true /\ best_cam_index r' = (-1)%Z /\ ~ (0 <= best_cam_index r')%Z.
Proof.
  split; [reflexivity|]. split.
  - exists (0%Z, 1%nat). split; [left | reflexivity].
  - eexists. split; [reflexivity|]. simpl. repeat split. lia.
Qed.

(** The records after the worker has run lines 115 and 116 for person A. *)
Lemma record_during_pass_witness :
  exists k, (k <= 3)%nat /\
    people_status (globals at_line_116) !! "A"%string
    = Some (partly_published verify_two k two_frames (initial_status "A.png"%string)).
Proof.
  apply (record_during_pass_is_partly_published verify_two after_first_tick two_frames
           [Work 0; Work 0; Work 0] at_line_116).
  - reflexivity.
  - reflexivity.
  - reflexivity.
  - reflexivity.
Defined.

(** C3 fails as stated.  No pass has completed, so the last published record
    of person A is the initial one; the running pass is about to publish
    camera 0 at distance 0.25; between lines 116 and 117 the record reads
    camera 0 at distance 10.0, and the main loop shows exactly that. *)
Lemma torn_record_is_read_during_pass :
  run verify_two until_line_116 two_cameras = Running at_line_116 /\
  is_processing (globals at_line_116) = true /\
  length (threads at_line_116) = 1%nat /\
  people_status (globals two_cameras) !! "A"%string
  = Some (mkStatus (-1) 10 false "A.png"%string) /\
  people_status (fst (process_multi_camera verify_two two_frames (globals two_cameras)))
    !! "A"%string
  = Some (mkStatus 0 0.25 true "A.png"%string) /\
  people_status (globals at_line_116) !! "A"%string
  = Some (mkStatus 0 10 true "A.png"%string) /\
  windows_of (tick false at_line_116)
  = Some [("A"%string, Winner 0 10 (0%Z, 3%nat)); ("B"%string, Searching)].
Proof. repeat split; reflexivity. Qed.

(** The gate in the state after lines 115 and 116. *)
Lemma at_most_one_pass_witness :
  (length (threads at_line_116) <= 1)%nat /\
  (is_processing (globals at_line_116) = true <-> threads at_line_116 <> []) /\
  forall key s', system_of (tick key at_line_116) = Some s' ->
    (is_processing (globals at_line_116) = true ->
       threads s' = threads at_line_116 /\ is_processing (globals s') = true) /\
    (threads s' <> threads at_line_116 ->
       is_processing (globals at_line_116) = false /\ threads at_line_116 = [] /\
       (counter (globals at_line_116) mod 30 = 0)%Z /\ length (threads s') = 1%nat) /\
    (is_processing (globals at_line_116) = false ->
     (counter (globals at_line_116) mod 30 = 0)%Z ->
     forall entry more caps',
       capture (caps (globals at_line_116)) = inr (entry :: more, caps') ->
       threads s'
       = [mkThread (entry :: more) (AtPerson (valid_people (globals at_line_116)))] /\
       is_processing (globals s') = true).
Proof.
  apply (at_most_one_pass_in_flight verify_two two_people [live 0; live 1]
           until_line_116 at_line_116).
  reflexivity.
Defined.

(** The oracle raises on camera 0; person A is published from camera 1, the
    one that answered, and the pass completes. *)
Lemma oracle_error_witness :
  snd (process_multi_camera verify_raising two_frames (globals two_cameras)) = Completed /\
  people_status (fst (process_multi_camera verify_raising two_frames (globals two_cameras)))
    !! "A"%string
  = Some (mkStatus 1 0.25 true "A.png"%string) /\
  exists r',
    people_status
      (fst (process_multi_camera verify_raising two_frames (globals two_cameras)))
      !! "A"%string = Some r' /\
    is_match r' = true /\
    verified_at verify_raising "A.png"%string
      (without_raising verify_raising "A.png"%string two_frames)
      (best_cam_index r') (distance r') /\
    forall c d,
      verified_at verify_raising "A.png"%string
        (without_raising verify_raising "A.png"%string two_frames) c d ->
      (d <? distance r') = false /\
      ((d =? distance r') = true -> (best_cam_index r' <= c)%Z).
Proof.
  destruct (oracle_error_skips_one_camera verify_raising two_frames
              (globals two_cameras) "A" (initial_status "A.png"%string))
    as (_ & Hdone & _ & r' & Hr' & _ & _ & Hbest).
  - exact two_frames_ascending.
  - apply registered_startup.
  - apply list_elem_of_In. vm_compute. auto.
  - reflexivity.
  - split; [exact Hdone|]. split; [reflexivity|].
    exists r'. split; [exact Hr'|].
    apply (Hbest 1%Z 0.25%float); [|reflexivity].
    exists (1%Z, 0%nat). split; [|reflexivity].
    apply list_elem_of_In. vm_compute. auto.
Defined.

(** The same dictionary and oracle on two different sets of records. *)
Lemma pass_determined_witness :
  people_status (fst (process_multi_camera verify_two two_frames (globals two_cameras)))
    !! "A"%string
  = people_status (fst (process_multi_camera verify_two two_frames after_far_pass))
      !! "A"%string
  /\
  people_status (fst (process_multi_camera verify_two two_frames
                        (fst (process_multi_camera verify_two two_frames
                                (globals two_cameras))))) !! "A"%string
  = people_status (fst (process_multi_camera verify_two two_frames (globals two_cameras)))
      !! "A"%string.
Proof.
  apply (pass_determined_by_snapshot_and_answers verify_two verify_two two_frames
           (globals two_cameras) after_far_pass).
  - reflexivity.
  - reflexivity.
  - apply registered_startup.
  - apply pass_keeps_registered, registered_startup.
  - intros name H. destruct (two_people_valid name H) as [->| ->]; reflexivity.
  - apply list_elem_of_In. vm_compute. auto.
Defined.

(** No picture loads and the one configured camera delivers nothing: the
    loop runs, and [q] ends it with exit code 0. *)
Lemma startup_checks_nothing_witness :
  run verify_two ([Tick false; Tick false] ++ [Tick true]) (startup nobody [dead])
  = Exited 0 /\
  exists s,
    run verify_two [Tick false; Tick false] (startup nobody [dead]) = Running s /\
    people_status (globals s) = people_status (globals (startup nobody [dead])) /\
    threads s = [] /\ is_processing (globals s) = false /\
    counter (globals s) = 0%Z /\
    forall key, shown_of (tick key s) = Some WaitingForCameras.
Proof.
  apply (startup_checks_nothing verify_two nobody [dead]).
  - discriminate.
  - intros cap H n. apply list_elem_of_singleton in H as ->. reflexivity.
  - intros ev H E. subst ev. apply list_elem_of_In in H. simpl in H.
    destruct H as [H|[H|[]]]; discriminate.
Defined.

(** C8 fails as stated.  With no picture loaded the main loop is entered and
    is still running after three iterations; so it is with pictures and a
    single camera that never delivers a frame. *)
Lemma loop_entered_without_pictures_or_frames :
  valid_people (globals (startup nobody [live 0])) = [] /\
  (exists s, run verify_two [Tick false; Tick false; Tick false]
               (startup nobody [live 0]) = Running s) /\
  (exists s, run verify_two [Tick false; Tick false; Tick false]
               (startup two_people [dead]) = Running s /\
     caps (globals s) = [mkCap (fun _ => None) 6]).
Proof.
  split; [reflexivity|]. split.
  - eexists. reflexivity.
  - eexists. split; reflexivity.
Qed.


(** The pictures of the two-person configuration both load. *)
Lemma loading_witness :
  snd (@load_reference_images image two_people) = loaded_names two_people /\
  NoDup (snd (@load_reference_images image two_people)) /\
  (forall name,
     name ∈ snd (@load_reference_images image two_people) <->
     is_Some (fst (@load_reference_images image two_people) !! name)) /\
  (forall name st,
     fst (@load_reference_images image two_people) !! name = Some st <->
     exists img, (name, Some img) ∈ two_people /\ st = initial_status img).
Proof.
  apply (loading_registers_loaded_pictures two_people).
  unfold two_people. simpl. constructor.
  - intros H. apply list_elem_of_singleton in H. discriminate.
  - constructor; [intros H; inversion H | constructor].
Defined.

(** Person A from a dictionary in descending key order. *)
Lemma published_pair_witness :
  exists r',
    people_status
      (fst (process_multi_camera verify_two reversed_frames (globals two_cameras)))
      !! "A"%string = Some r' /\
    ref_img r' = "A.png"%string /\
    (distance r' <=? 10) = true /\
    ((best_cam_index r' = (-1)%Z /\ distance r' = 10) \/
     (is_match r' = true /\ (distance r' <? 10) = true /\
      verified_at verify_two "A.png"%string reversed_frames
        (best_cam_index r') (distance r'))).
Proof.
  apply (published_pair_is_consistent verify_two reversed_frames
           (globals two_cameras) "A" (initial_status "A.png"%string)).
  - apply registered_startup.
  - apply list_elem_of_In. vm_compute. auto.
  - reflexivity.
Defined.

(** Person B is verified nowhere: nothing of the dictionary counts. *)
Lemma unverified_answers_witness :
  (forall b e d, verify_two (snd e) "B.png"%string = Result false d ->
     check_camera verify_two "B.png"%string b e = b) /\
  people_status (fst (process_multi_camera verify_two two_frames (globals two_cameras)))
    !! "B"%string
  = Some (published verify_two (only_verified verify_two "B.png"%string two_frames)
            (initial_status "B.png"%string)).
Proof.
  apply (unverified_answers_are_ignored verify_two two_frames
           (globals two_cameras) "B" (initial_status "B.png"%string)).
  - apply registered_startup.
  - apply list_elem_of_In. vm_compute. auto.
  - reflexivity.
Defined.

(** Two oracles that agree on the picture of B only, and records that differ
    for A. *)
Lemma independence_witness :
  people_status (fst (process_multi_camera verify_two two_frames (globals two_cameras)))
    !! "B"%string
  = people_status
      (fst (process_multi_camera
              (fun f ref => if String.eqb ref "B.png" then verify_two f ref
                            else verify_far f ref)
              two_frames after_far_pass)) !! "B"%string.
Proof.
  apply (people_are_resolved_independently verify_two _ two_frames
           (globals two_cameras) after_far_pass "B"
           (initial_status "B.png"%string)
           (mkStatus (-1) 10 true "B.png"%string)).
  - apply registered_startup.
  - apply pass_keeps_registered, registered_startup.
  - apply list_elem_of_In. vm_compute. auto.
  - apply list_elem_of_In. vm_compute. auto.
  - reflexivity.
  - reflexivity.
  - reflexivity.
  - intros c f _. reflexivity.
Defined.

(** From between lines 116 and 117 the worker needs at most seven steps. *)
Lemma pass_ends_witness :
  exists n s',
    (n <= match threads at_line_116 with t :: _ => steps_left (pc t) | [] => 0 end)%nat /\
    run verify_two (replicate n (Work 0)) at_line_116 = Running s' /\
    threads s' = [] /\ is_processing (globals s') = false /\
    valid_people (globals s') = valid_people (globals at_line_116) /\
    caps (globals s') = caps (globals at_line_116) /\
    counter (globals s') = counter (globals at_line_116).
Proof.
  apply (pass_ends_and_clears_flag verify_two two_people [live 0; live 1]
           until_line_116 at_line_116).
  reflexivity.
Defined.

(** The first pass with three iterations of the main loop in between. *)
Lemma interleaved_pass_witness :
  people_status (globals (work verify_two 0 before_finally))
  = people_status (fst (process_multi_camera verify_two two_frames
                          (globals after_first_tick))) /\
  is_processing (globals (work verify_two 0 before_finally)) = false.
Proof.
  apply (interleaved_pass_publishes_the_same verify_two after_first_tick two_frames
           interleaved before_finally).
  - reflexivity.
  - reflexivity.
  - reflexivity.
  - reflexivity.
Defined.

(** The people and pictures after lines 115 and 116 of the first pass. *)
Lemma people_and_pictures_witness :
  valid_people (globals at_line_116) = valid_people (globals two_cameras) /\
  dom (people_status (globals at_line_116)) = dom (people_status (globals two_cameras)) /\
  forall name, ref_img <$> people_status (globals at_line_116) !! name
               = ref_img <$> people_status (globals two_cameras) !! name.
Proof.
  apply (people_and_pictures_never_change verify_two until_line_116
           two_cameras at_line_116).
  reflexivity.
Defined.

(** One iteration: camera 0 is at cursor 2, camera 1 at cursor 1. *)
Lemma cameras_read_witness :
  caps (globals at_line_116)
  = advance (ticks until_line_116) (caps (globals two_cameras)) /\
  length (caps (globals at_line_116)) = length (caps (globals two_cameras)).
Proof.
  apply (cameras_are_read_once_per_iteration_and_camera_zero_twice verify_two
           until_line_116 two_cameras at_line_116).
  reflexivity.
Defined.

(** The dictionary of the first iteration with two live cameras. *)
Lemma captured_dictionary_witness :
  ascending two_frames /\
  keys_in_range (length [live 0; live 1]) two_frames /\
  (forall k f,
     (k, f) ∈ two_frames <->
     exists j cap, k = Z.of_nat j /\ after_first_read [live 0; live 1] !! j = Some cap /\
       feed cap (cursor cap) = Some f) /\
  (forall k f, frame_of two_frames k = Some f <-> (k, f) ∈ two_frames).
Proof.
  apply (captured_dictionary_holds_delivering_cameras [live 0; live 1]
           (advance 1 [live 0; live 1]) two_frames).
  reflexivity.
Defined.

(** An iteration with a single camera that delivers nothing. *)
Lemma iteration_without_frames_witness :
  shown_of (tick false dead_camera) = Some WaitingForCameras /\
  counter (globals after_dead_tick) = counter (globals dead_camera) /\
  is_processing (globals after_dead_tick) = is_processing (globals dead_camera) /\
  threads after_dead_tick = threads dead_camera /\
  people_status (globals after_dead_tick) = people_status (globals dead_camera).
Proof.
  apply (iteration_without_frames_is_skipped false dead_camera after_dead_tick).
  - reflexivity.
  - intros [|[|j]] cap H; vm_compute in H; try discriminate.
    injection H as <-. reflexivity.
Defined.

(** The iteration after the first pass: A is shown on camera 0 with the
    frame of this iteration, B is searched for. *)
Lemma windows_witness :
  (forall s', system_of (tick false after_first_pass) = Some s' -> threads s' = []) /\
  map fst [("A"%string, Winner 0 0.25 (0%Z, 3%nat)); ("B"%string, Searching)]
  = valid_people (globals after_first_pass) /\
  forall name v,
    (name, v) ∈ [("A"%string, Winner 0 0.25 (0%Z, 3%nat)); ("B"%string, Searching)] ->
    exists r, people_status (globals after_first_pass) !! name = Some r /\
      (forall c d f,
         v = Winner c d f <->
         is_match r = true /\ c = best_cam_index r /\ d = distance r /\
         (c, f) ∈ [(0%Z, (0%Z, 3%nat)); (1%Z, (1%Z, 1%nat))]) /\
      (v = Searching <->
       is_match r = false \/
       forall f, (best_cam_index r, f) ∉ [(0%Z, (0%Z, 3%nat)); (1%Z, (1%Z, 1%nat))]).
Proof.
  apply (windows_follow_records false after_first_pass
           [(0%Z, (0%Z, 3%nat)); (1%Z, (1%Z, 1%nat))]
           (advance 1 (caps (globals after_first_pass)))).
  - reflexivity.
  - reflexivity.
  - reflexivity.
  - reflexivity.
Defined.

(** The record of person A between lines 116 and 117. *)
Lemma records_in_range_witness :
  people_status (globals at_line_116) !! "A"%string
  = Some (mkStatus 0 10 true "A.png"%string) /\
  ((best_cam_index (mkStatus 0 10 true "A.png"%string) = (-1)%Z \/
    (0 <= best_cam_index (mkStatus 0 10 true "A.png"%string)
     < Z.of_nat (length [live 0; live 1]))%Z) /\
   (distance (mkStatus 0 10 true "A.png"%string) <=? 10)%float = true).
Proof.
  split; [reflexivity|].
  apply (records_stay_in_range verify_two two_people [live 0; live 1]
           until_line_116 at_line_116 eq_refl "A"%string).
  reflexivity.
Defined.

(** Both cameras report 0.25 and the dictionary visits camera 1 first: the
    published camera is the entry at position 0. *)
Lemma ties_witness :
  exists r' i,
    people_status
      (fst (process_multi_camera verify_tie reversed_frames (globals two_cameras)))
      !! "A"%string = Some r' /\
    is_match r' = true /\
    verified_entry verify_tie "A.png"%string reversed_frames i
      (best_cam_index r') (distance r') /\
    forall j c d, verified_entry verify_tie "A.png"%string reversed_frames j c d ->
      (d <? distance r') = false /\
      ((d =? distance r') = true -> (i <= j)%nat).
Proof.
  apply (ties_go_to_the_first_entry_visited verify_tie reversed_frames
           (globals two_cameras) "A" (initial_status "A.png"%string) 1%nat 0 0.25).
  - apply registered_startup.
  - apply list_elem_of_In. vm_compute. auto.
  - reflexivity.
  - exists (0%Z, 1%nat). split; reflexivity.
  - reflexivity.
Defined.



(** The first pass starts at counter 0, the second at counter 30. *)
Lemma passes_apart_witness :
  (counter (globals two_cameras) + 30 <= counter (globals at_counter_30))%Z.
Proof.
  apply (passes_start_thirty_counts_apart verify_two false false second_round
           two_cameras after_first_tick at_counter_30 after_second_start).
  - vm_compute. reflexivity.
  - vm_compute. discriminate.
  - vm_compute. reflexivity.
  - vm_compute. reflexivity.
  - vm_compute. discriminate.
Defined.


End Scenarios.
